(** * agentchatbot: the document pipeline of [document_processor.py]

    A shallow embedding of [DocumentProcessor]: the chunker
    ([chunk_text]), change detection and indexing ([process_document]),
    batch processing ([process_all_documents]), retrieval
    ([search_documents]) and the summary, and of the chat route of
    [main.py] that calls it, followed by the properties of the
    specification that are stated about them and by further properties
    read off the code.

    Conventions.
    - A Python [str] holding document text is a [list ascii] (the chunker
      never inspects a character, [strip] only asks whether it is white
      space); file names, hashes and chunk ids are [string]s because they
      are dictionary keys.
    - A Python [int] argument is a [Z]; lengths and indices produced by
      [len] and [enumerate] are [nat].
    - A [while] loop is a function with fuel that returns [None] when the
      fuel runs out; termination is a theorem, not an assumption.
    - A method that can raise is a computation in the monad [M]: it maps
      the processor state to a result or an exception, and to the state
      reached by then (mutations made before a [raise] stay).
    - The collaborators that are not part of the repository (the file
      system, PyPDF2, python-docx, the sentence transformer, ChromaDB, the
      clock) are the fields of the record [Env].
    - The messages that the methods [print] are not part of the model. *)

From Stdlib Require Import ZArith Ascii String DecimalString DecimalNat.
From stdpp Require Import gmap strings list fin_maps.

Local Open Scope Z_scope.

(** ** Python strings *)

Definition text := list ascii.

Definition py_len (t : text) : Z := Z.of_nat (length t).

(** The bound of a slice: a negative index counts from the end, and both
    ends are clamped to [0 .. len]. *)
Definition slice_bound (n i : Z) : Z :=
  if i <? 0 then Z.max (i + n) 0 else Z.min i n.

(** [t[start:stop]] *)
Definition py_slice (t : text) (start stop : Z) : text :=
  let lo := slice_bound (py_len t) start in
  let hi := slice_bound (py_len t) stop in
  take (Z.to_nat (hi - lo)) (drop (Z.to_nat lo) t).

(** [str.isspace] on the code points below 256. *)
Definition is_space (c : ascii) : bool :=
  let n := nat_of_ascii c in
  ((9 <=? n) && (n <=? 13) || (28 <=? n) && (n <=? 32)
   || (n =? 133) || (n =? 160))%nat.

Fixpoint lstrip (t : text) : text :=
  match t with
  | c :: rest => if is_space c then lstrip rest else t
  | [] => []
  end.

Definition rstrip (t : text) : text := rev (lstrip (rev t)).

(** [str.strip()] *)
Definition strip (t : text) : text := rstrip (lstrip t).

(** [not s] for a string [s] *)
Definition is_empty (t : text) : bool :=
  match t with [] => true | _ => false end.

Definition newline : ascii := ascii_of_nat 10.

(** ** Paths ([os.path], POSIX flavour) *)

Definition slash : ascii := "/"%char.
Definition dot : ascii := "."%char.

Fixpoint basename_from (seen p : list ascii) : list ascii :=
  match p with
  | [] => seen
  | c :: rest =>
      if Ascii.eqb c slash then basename_from [] rest
      else basename_from (seen ++ [c]) rest
  end.

(** [os.path.basename]: what follows the last separator. *)
Definition basename (p : string) : string :=
  string_of_list_ascii (basename_from [] (list_ascii_of_string p)).

Fixpoint until_dot (r : list ascii) : option (list ascii * list ascii) :=
  match r with
  | [] => None
  | c :: rest =>
      if Ascii.eqb c dot then Some ([], rest)
      else match until_dot rest with
           | Some (suffix, before) => Some (c :: suffix, before)
           | None => None
           end
  end.

(** The extension [os.path.splitext(name)[1]] of a name without
    separators: it starts at the last dot, unless only dots precede it. *)
Definition splitext_ext (name : string) : string :=
  match until_dot (rev (list_ascii_of_string name)) with
  | Some (rsuffix, rbefore) =>
      if forallb (Ascii.eqb dot) rbefore then EmptyString
      else string_of_list_ascii (dot :: rev rsuffix)
  | None => EmptyString
  end.

Definition lower_char (c : ascii) : ascii :=
  let n := nat_of_ascii c in
  if ((65 <=? n) && (n <=? 90))%nat then ascii_of_nat (n + 32) else c.

(** [str.lower()], on the ASCII letters. *)
Definition lower (s : string) : string :=
  string_of_list_ascii (map lower_char (list_ascii_of_string s)).

Definition ends_with_slash (a : string) : bool :=
  match rev (list_ascii_of_string a) with
  | c :: _ => Ascii.eqb c slash
  | [] => false
  end.

Definition starts_with_slash (b : string) : bool :=
  match b with
  | String c _ => Ascii.eqb c slash
  | EmptyString => false
  end.

(** [os.path.join(a, b)] *)
Definition path_join (a b : string) : string :=
  if starts_with_slash b then b
  else if String.eqb a EmptyString || ends_with_slash a then (a ++ b)%string
  else (a ++ "/" ++ b)%string.

(** [str(i)] for a non-negative index. *)
Definition str_of_nat (i : nat) : string :=
  NilZero.string_of_uint (Nat.to_uint i).

(** The chunk id [f"{file_name}_{i}"]. *)
Definition chunk_id (file_name : string) (i : nat) : string :=
  (file_name ++ "_" ++ str_of_nat i)%string.

(** ** The chunker *)

(** One iteration of the [while] loop, on the pair of the local variables
    [start] and [chunks]. *)
Definition loop_body (t : text) (chunk_size overlap : Z) (s : Z * list text)
  : Z * list text :=
  let '(start, chunks) := s in
  let end_ := start + chunk_size in
  let chunk := py_slice t start end_ in
  (end_ - overlap, chunks ++ [chunk]).

(** [while start < len(text): ...]; the result is the pair of [start] and
    [chunks] when the loop is left. *)
Fixpoint chunk_loop (fuel : nat) (t : text) (chunk_size overlap : Z)
    (s : Z * list text) : option (Z * list text) :=
  match fuel with
  | O => None
  | S fuel' =>
      if s.1 <? py_len t
      then chunk_loop fuel' t chunk_size overlap (loop_body t chunk_size overlap s)
      else Some s
  end.

(** [chunk_text(text, chunk_size, overlap)] *)
Definition chunk_text (fuel : nat) (t : text) (chunk_size overlap : Z)
  : option (list text) :=
  if py_len t <=? chunk_size then Some [t]
  else snd <$> chunk_loop fuel t chunk_size overlap (0, []).

(** The call [self.chunk_text(text)] of [process_document], with the
    default [chunk_size = 1000] and [overlap = 200].  [length t + 1]
    iterations are enough for these arguments
    ([chunk_text_default_runs]). *)
Definition chunk_text_default (t : text) : list text :=
  default [] (chunk_text (S (length t)) t 1000 200).

(** *** Vocabulary for the chunker's properties *)

(** The last [k] characters of [c]. *)
Definition last_chars (k : nat) (c : text) : text := drop (length c - k) c.

(** [c] then [d] overlap by exactly [k] characters: the last [k]
    characters of [c] are the first [k] characters of [d]. *)
Definition overlap_exactly (k : nat) (c d : text) : Prop :=
  length (take k d) = k ∧ length (last_chars k c) = k ∧
  last_chars k c = take k d.

(** The pairs of consecutive chunks, in order. *)
Definition consecutive_pairs (chunks : list text) : list (text * text) :=
  zip chunks (tail chunks).

(** The first chunk followed by what every later chunk adds after the
    [overlap] characters it shares with its predecessor. *)
Definition residues (overlap : Z) (chunks : list text) : text :=
  match chunks with
  | [] => []
  | c :: rest => c ++ concat (drop (Z.to_nat overlap) <$> rest)
  end.

(** The window of [t] that starts at offset [a] and has width [w]. *)
Definition window (t : text) (a w : nat) : text := take w (drop a t).

(** The chunk produced by iteration [i] of a loop entered at [start]. *)
Definition nth_window (t : text) (chunk_size overlap start : Z) (i : nat) : text :=
  py_slice t (start + Z.of_nat i * (chunk_size - overlap))
             (start + Z.of_nat i * (chunk_size - overlap) + chunk_size).

(** Every pair of consecutive chunks, the last pair excepted, overlaps by
    exactly [overlap] characters. *)
Definition all_but_last_overlap (overlap : Z) (chunks : list text) : Prop :=
  ∀ (i : nat) (c d : text),
    chunks !! i = Some c → chunks !! S i = Some d →
    is_Some (chunks !! S (S i)) →
    overlap_exactly (Z.to_nat overlap) c d.

(** The text of the chunking scenario, ['a' * 2500]. *)
Definition scenario_text : text := repeat "a"%char 2500.

(** ** Exceptions and the processor monad *)

Inductive exn : Type :=
  | OSError
  | UnicodeDecodeError
  | ValueError
  | IndexError
  | DuplicateIDError
  | RuntimeError (msg : string).

Definition M (S A : Type) : Type := S → (exn + A) * S.

Definition ret {S A} (a : A) : M S A := λ s, (inr a, s).

Definition bind {S A B} (c : M S A) (k : A → M S B) : M S B :=
  λ s, match c s with
       | (inr a, s') => k a s'
       | (inl e, s') => (inl e, s')
       end.

Definition raise {S A} (e : exn) : M S A := λ s, (inl e, s).

Definition get_state {S} : M S S := λ s, (inr s, s).

Definition modify {S} (f : S → S) : M S unit := λ s, (inr tt, f s).

(** A call to a collaborator that returns or raises. *)
Definition call {S A} (r : exn + A) : M S A :=
  match r with
  | inl e => raise e
  | inr a => ret a
  end.

#[global] Instance M_ret {S} : MRet (M S) := @ret S.
#[global] Instance M_bind {S} : MBind (M S) := λ A B k c, @bind S A B c k.

(** [try: body except Exception: return fallback] *)
Definition try_except {S A} (body : M S A) (fallback : A) : S → A * S :=
  λ s, match body s with
       | (inr a, s') => (a, s')
       | (inl _, s') => (fallback, s')
       end.

(** ** The data model *)

(** A record of [document_metadata], one per file name. *)
Record DocMeta : Type := {
  hash : string;
  processed_date : nat;
  total_chunks : nat;
  file_type : string;
  file_size : nat;
}.

(** The metadata stored with every chunk. *)
Record ChunkMeta : Type := {
  chunk_file_name : string;
  chunk_index : nat;
  chunk_total_chunks : nat;
  chunk_file_type : string;
  chunk_processed_date : nat;
}.

(** What ChromaDB does when [add] is given an id that the collection
    already holds; it depends on the version of the library. *)
Inductive OnExisting : Type :=
  | KeepExisting      (* the record of the call is dropped *)
  | ReplaceExisting   (* the stored record is overwritten *)
  | RejectExisting.   (* the call raises *)

Section Model.

(** The embedding vectors and the distances of the vector store are
    opaque to the processor. *)
Context {vector distance : Type}.

(** A record of the ChromaDB collection. *)
Record Entry : Type := {
  entry_embedding : vector;
  entry_document : text;
  entry_metadata : ChunkMeta;
}.

(** The dictionary returned by [collection.query]. *)
Record QueryResult : Type := {
  documents : list (list text);
  metadatas : list (list ChunkMeta);
  distances : option (list (list distance));
}.

(** An element of the list returned by [search_documents]. *)
Record SearchHit : Type := {
  content : text;
  metadata : ChunkMeta;
  hit_distance : option distance;
}.

(** The state of a [DocumentProcessor]: its dictionary of metadata, the
    collection, the metadata file on disk ([None] when there is no file
    or when the file does not hold a JSON document, as after a write
    that stopped once [open] had truncated it: [load_metadata] reads
    both as the empty dictionary), the clock read by [datetime.now()],
    and a count of the calls made to [embedding_model.encode]. *)
Record Processor : Type := {
  document_metadata : gmap string DocMeta;
  collection : gmap string Entry;
  metadata_file : option (gmap string DocMeta);
  clock : nat;
  encode_calls : nat;
}.

(** The collaborators. *)
Record Env : Type := {
  documents_dir : string;
  listdir : list string;                        (* os.listdir(documents_dir) *)
  isfile : string → bool;                       (* os.path.isfile *)
  read_bytes : string → exn + list Byte.byte;   (* open(path, 'rb').read() *)
  md5_hexdigest : list Byte.byte → string;
  getsize : string → exn + nat;                 (* os.path.getsize *)
  pdf_pages : string → exn + list text;         (* the text of each page *)
  docx_paragraphs : string → exn + list text;
  read_utf8 : string → exn + text;              (* open(path, 'r').read() *)
  encode : list text → exn + list vector;
  store_online : bool;
  on_existing : OnExisting;
  query : gmap string Entry → list vector → Z → exn + QueryResult;
  disk_writable : bool;
  (* what a failed write of the metadata file leaves on disk, from what
     the file held and the dictionary that was being written: the old
     content when [open] raises, no JSON document when the write stops
     after [open(..., 'w')] has truncated the file *)
  failed_write_leaves :
    option (gmap string DocMeta) → gmap string DocMeta →
    option (gmap string DocMeta);
}.

Definition set_document_metadata (f : gmap string DocMeta → gmap string DocMeta)
    (st : Processor) : Processor :=
  {| document_metadata := f (document_metadata st);
     collection := collection st;
     metadata_file := metadata_file st;
     clock := clock st;
     encode_calls := encode_calls st |}.

Definition set_collection (c : gmap string Entry) (st : Processor) : Processor :=
  {| document_metadata := document_metadata st;
     collection := c;
     metadata_file := metadata_file st;
     clock := clock st;
     encode_calls := encode_calls st |}.

Definition set_metadata_file (f : option (gmap string DocMeta))
    (st : Processor) : Processor :=
  {| document_metadata := document_metadata st;
     collection := collection st;
     metadata_file := f;
     clock := clock st;
     encode_calls := encode_calls st |}.

Definition tick (st : Processor) : Processor :=
  {| document_metadata := document_metadata st;
     collection := collection st;
     metadata_file := metadata_file st;
     clock := S (clock st);
     encode_calls := encode_calls st |}.

Definition count_encode (st : Processor) : Processor :=
  {| document_metadata := document_metadata st;
     collection := collection st;
     metadata_file := metadata_file st;
     clock := clock st;
     encode_calls := S (encode_calls st) |}.

(** [datetime.now().isoformat()] *)
Definition now : M Processor nat :=
  λ st, (inr (clock st), tick st).

(** [self.embedding_model.encode(texts)] *)
Definition encode_texts (env : Env) (texts : list text) : M Processor (list vector) :=
  modify count_encode ;; call (encode env texts).

(** ** ChromaDB *)

(** The records of a call to [add], by id; [None] when the four lists do
    not have the same length. *)
Fixpoint add_records (ids : list string) (embeddings : list vector)
    (docs : list text) (metas : list ChunkMeta) : option (list (string * Entry)) :=
  match ids, embeddings, docs, metas with
  | [], [], [], [] => Some []
  | id :: ids', e :: embeddings', d :: docs', m :: metas' =>
      rest ← add_records ids' embeddings' docs' metas';
      Some ((id, {| entry_embedding := e; entry_document := d;
                    entry_metadata := m |}) :: rest)
  | _, _, _, _ => None
  end.

(** [collection.add(embeddings, documents, metadatas, ids)] *)
Definition collection_add (env : Env) (c : gmap string Entry)
    (embeddings : list vector) (docs : list text) (metas : list ChunkMeta)
    (ids : list string) : exn + gmap string Entry :=
  if negb (store_online env) then inl (RuntimeError "store unavailable")
  else match add_records ids embeddings docs metas with
       | None => inl ValueError
       | Some records =>
           if negb (bool_decide (NoDup ids)) then inl DuplicateIDError
           else match on_existing env with
                | KeepExisting => inr (c ∪ list_to_map records)
                | ReplaceExisting => inr (list_to_map records ∪ c)
                | RejectExisting =>
                    if existsb (λ id, bool_decide (is_Some (c !! id))) ids
                    then inl DuplicateIDError
                    else inr (list_to_map records ∪ c)
                end
       end.

(** ** The metadata file *)

(** [save_metadata]: [open(self.metadata_file, 'w')] then [json.dump].
    When both succeed the whole dictionary is written over the file;
    when one of them raises, the file is left as the failure leaves it
    ([open] with ['w'] truncates the file before anything is written). *)
Definition save_metadata (env : Env) : M Processor unit :=
  if disk_writable env
  then modify (λ st, set_metadata_file (Some (document_metadata st)) st)
  else
    modify (λ st,
      set_metadata_file
        (failed_write_leaves env (metadata_file st) (document_metadata st)) st) ;;
    raise OSError.

(** [load_metadata]: a missing file is an empty dictionary, and so is a
    file that [json.load] cannot read. *)
Definition load_metadata (st : Processor) : gmap string DocMeta :=
  default ∅ (metadata_file st).

(** ** Change detection and text extraction *)

(** [get_file_hash] *)
Definition get_file_hash (env : Env) (file_path : string) : M Processor string :=
  bytes ← call (read_bytes env file_path);
  ret (md5_hexdigest env bytes).

(** The test [file_name in self.document_metadata and
    self.document_metadata[file_name]['hash'] == file_hash]. *)
Definition up_to_date (st : Processor) (file_name file_hash : string) : bool :=
  match document_metadata st !! file_name with
  | Some record => String.eqb (hash record) file_hash
  | None => false
  end.

Definition join_lines (parts : list text) : text :=
  concat (map (λ p, p ++ [newline]) parts).

(** The three extractors catch every exception and return the empty
    string. *)
Definition extract_text_from_pdf (env : Env) (file_path : string) : text :=
  match pdf_pages env file_path with
  | inr pages => strip (join_lines pages)
  | inl _ => []
  end.

Definition extract_text_from_docx (env : Env) (file_path : string) : text :=
  match docx_paragraphs env file_path with
  | inr paragraphs => strip (join_lines paragraphs)
  | inl _ => []
  end.

Definition extract_text_from_txt (env : Env) (file_path : string) : text :=
  match read_utf8 env file_path with
  | inr t => strip t
  | inl _ => []
  end.

(** The dispatch on the extension; [None] is the branch
    [Unsupported file type]. *)
Definition extract_text (env : Env) (file_ext file_path : string) : option text :=
  if String.eqb file_ext ".pdf" then Some (extract_text_from_pdf env file_path)
  else if String.eqb file_ext ".docx" then Some (extract_text_from_docx env file_path)
  else if String.eqb file_ext ".txt" then Some (extract_text_from_txt env file_path)
  else None.

(** ** [process_document] *)

(** The loop [for i, chunk in enumerate(chunks)], from index [i] on. *)
Fixpoint chunk_records (file_name file_ext : string) (total i : nat)
    (chunks : list text) : M Processor (list string * list ChunkMeta) :=
  match chunks with
  | [] => ret ([], [])
  | _ :: rest =>
      date ← now;
      '(ids, metas) ← chunk_records file_name file_ext total (S i) rest;
      mret (chunk_id file_name i :: ids,
           {| chunk_file_name := file_name; chunk_index := i;
              chunk_total_chunks := total; chunk_file_type := file_ext;
              chunk_processed_date := date |} :: metas)
  end.

(** The statements from [chunks = self.chunk_text(text)] to the final
    [return True]. *)
Definition index_document (env : Env) (file_path file_name file_hash file_ext : string)
    (t : text) : M Processor bool :=
  let chunks := chunk_text_default t in
  embeddings ← encode_texts env chunks;
  '(chunk_ids, chunk_metadata) ←
      chunk_records file_name file_ext (length chunks) 0 chunks;
  st ← get_state;
  c ← call (collection_add env (collection st) embeddings chunks
               chunk_metadata chunk_ids);
  modify (set_collection c) ;;
  date ← now;
  size ← call (getsize env file_path);
  modify (set_document_metadata
            (insert file_name
               {| hash := file_hash; processed_date := date;
                  total_chunks := length chunks; file_type := file_ext;
                  file_size := size |})) ;;
  save_metadata env ;;
  ret true.

(** The body of the [try] block. *)
Definition process_document_body (env : Env) (file_path : string) : M Processor bool :=
  let file_name := basename file_path in
  file_hash ← get_file_hash env file_path;
  st ← get_state;
  if up_to_date st file_name file_hash then ret true
  else
    let file_ext := lower (splitext_ext file_name) in
    match extract_text env file_ext file_path with
    | None => ret false
    | Some t =>
        if is_empty (strip t) then ret false
        else index_document env file_path file_name file_hash file_ext t
    end.

Definition process_document (env : Env) (file_path : string)
  : Processor → bool * Processor :=
  try_except (process_document_body env file_path) false.

(** ** [process_all_documents] *)

(** The loop over [os.listdir(self.documents_dir)], with the dictionary
    [results] built so far. *)
Fixpoint process_listing (env : Env) (names : list string)
    (results : gmap string bool) (st : Processor) : gmap string bool * Processor :=
  match names with
  | [] => (results, st)
  | filename :: rest =>
      let file_path := path_join (documents_dir env) filename in
      if isfile env file_path then
        let '(ok, st') := process_document env file_path st in
        process_listing env rest (<[filename := ok]> results) st'
      else process_listing env rest results st
  end.

Definition process_all_documents (env : Env)
  : Processor → gmap string bool * Processor :=
  process_listing env (listdir env) ∅.

(** ** [search_documents] *)

(** [l[i]] *)
Definition item {A} (l : list A) (i : nat) : exn + A :=
  match l !! i with
  | Some a => inr a
  | None => inl IndexError
  end.

(** The loop [for i in range(len(results['documents'][0]))] over the
    indices [indices]. *)
Fixpoint format_results (results : QueryResult) (indices : list nat)
  : M Processor (list SearchHit) :=
  match indices with
  | [] => ret []
  | i :: rest =>
      docs ← call (item (documents results) 0);
      doc ← call (item docs i);
      metas ← call (item (metadatas results) 0);
      meta ← call (item metas i);
      dist ← match distances results with
              | Some ds =>
                  row ← call (item ds 0);
                  d ← call (item row i);
                  ret (Some d)
              | None => ret None
              end;
      hits ← format_results results rest;
      ret ({| content := doc; metadata := meta; hit_distance := dist |} :: hits)
  end.

(** The body of the [try] block. *)
Definition search_documents_body (env : Env) (q : text) (n_results : Z)
  : M Processor (list SearchHit) :=
  query_embedding ← encode_texts env [q];
  st ← get_state;
  results ← call (query env (collection st) query_embedding n_results);
  docs ← call (item (documents results) 0);
  format_results results (seq 0 (length docs)).

Definition search_documents (env : Env) (q : text) (n_results : Z)
  : Processor → list SearchHit * Processor :=
  try_except (search_documents_body env q n_results) [].

(** [collection.count()] and [collection.get()['ids']] *)
Definition collection_count (env : Env) (c : gmap string Entry) : exn + nat :=
  if store_online env then inr (size c)
  else inl (RuntimeError "store unavailable").

Definition collection_get_ids (env : Env) (c : gmap string Entry)
  : exn + list string :=
  if store_online env then inr (map_to_list c).*1
  else inl (RuntimeError "store unavailable").

(** The dictionary returned by [get_document_summary]. *)
Record Summary : Type := {
  total_documents : nat;
  summary_documents : gmap string DocMeta;
  vector_db_size : nat;
}.

(** [get_document_summary]; it has no [try] block, an exception of the
    store is raised to the caller. *)
Definition get_document_summary (env : Env) (st : Processor) : exn + Summary :=
  match collection_count env (collection st) with
  | inl e => inl e
  | inr count =>
      match (if (0 <? count)%nat
             then match collection_get_ids env (collection st) with
                  | inr ids => inr (length ids)
                  | inl e => inl e
                  end
             else inr 0%nat) with
      | inl e => inl e
      | inr stored =>
          inr {| total_documents := size (document_metadata st);
                 summary_documents := document_metadata st;
                 vector_db_size := stored |}
      end
  end.

End Model.

Arguments Entry : clear implicits.
Arguments QueryResult : clear implicits.
Arguments SearchHit : clear implicits.
Arguments Processor : clear implicits.
Arguments Env : clear implicits.

(** ** Vocabulary for the batch and for retrieval *)

(** The entries of the documents directory that are files, in the order
    of [os.listdir]. *)
Definition listed_files {vector distance : Type} (env : Env vector distance)
  : list string :=
  List.filter (λ filename, isfile env (path_join (documents_dir env) filename))
    (listdir env).


(** Every document that [query] returns is stored in the collection. *)
Definition query_from_collection {vector distance : Type}
    (env : Env vector distance) : Prop :=
  ∀ c v n r docs d,
    query env c v n = inr r → docs ∈ documents r → d ∈ docs →
    ∃ id e, c !! id = Some e ∧ entry_document e = d.

(** ** A test environment *)

(** A stand-in for MD5 in the scenarios: the digest of a file is its
    content. *)
Definition toy_digest (bytes : list Byte.byte) : string :=
  string_of_list_byte bytes.

Definition pdf_magic : text := list_ascii_of_string "%PDF".

Definition map_result {A B} (f : A → B) (r : exn + A) : exn + B :=
  match r with
  | inr a => inr (f a)
  | inl e => inl e
  end.

(** A file system with the readable files [files] (by path) and the
    entries [names] of the documents directory; an entry that is not in
    [files] exists but cannot be opened.  A PDF is readable when it starts
    with [%PDF] and has one page; the embedding of a text is its length;
    [query] returns the first [n] records of the collection; the
    metadata file can be written. *)
Definition fixture_env (files : gmap string text) (names : list string)
    (policy : OnExisting) : Env nat nat :=
  let open (path : string) : exn + text :=
    match files !! path with
    | Some t => inr t
    | None => inl OSError
    end in
  {| documents_dir := "documents";
     listdir := names;
     isfile := λ path,
       bool_decide (path ∈ map (path_join "documents") names);
     read_bytes := λ path, map_result (map byte_of_ascii) (open path);
     md5_hexdigest := toy_digest;
     getsize := λ path, map_result length (open path);
     pdf_pages := λ path,
       match open path with
       | inr t =>
           if bool_decide (take 4 t = pdf_magic) then inr [drop 4 t]
           else inl ValueError
       | inl e => inl e
       end;
     docx_paragraphs := λ path, map_result (λ t, [t]) (open path);
     read_utf8 := open;
     encode := λ texts, inr (length <$> texts);
     store_online := true;
     on_existing := policy;
     query := λ c _ n,
       let found := take (Z.to_nat n) (map_to_list c).*2 in
       inr {| documents := [entry_document <$> found];
              metadatas := [entry_metadata <$> found];
              distances := Some [(λ _, 0%nat) <$> found] |};
     disk_writable := true;
     failed_write_leaves := λ held _, held |}.

(** A processor that has indexed nothing. *)
Definition fresh_processor : Processor nat :=
  {| document_metadata := ∅; collection := ∅; metadata_file := None;
     clock := 0; encode_calls := 0 |}.

(** The scenario of a document that shrinks: [a.txt] has 1001 characters
    (two chunks), then one character (one chunk). *)
Definition shrink_before (policy : OnExisting) : Env nat nat :=
  fixture_env {[ "documents/a.txt" := repeat "a"%char 1001 ]} ["a.txt"] policy.

Definition shrink_after (policy : OnExisting) : Env nat nat :=
  fixture_env {[ "documents/a.txt" := list_ascii_of_string "b" ]} ["a.txt"] policy.

(** The scenario of a batch of three documents: [broken.pdf] is not a
    PDF, and [locked.txt] is listed but cannot be opened. *)
Definition batch_env : Env nat nat :=
  fixture_env
    {[ "documents/notes.txt" := list_ascii_of_string "some notes";
       "documents/broken.pdf" := list_ascii_of_string "not a pdf";
       "documents/paper.pdf" := list_ascii_of_string "%PDFa paper" ]}
    ["notes.txt"; "broken.pdf"; "locked.txt"; "paper.pdf"] ReplaceExisting.

(** The two runs of the shrinking scenario: [a.txt] is processed, is
    replaced by its shorter version, and is processed again. *)
Definition shrink_first_run (policy : OnExisting) : bool * Processor nat :=
  process_document (shrink_before policy) "documents/a.txt" fresh_processor.

Definition shrink_second_run (policy : OnExisting) : bool * Processor nat :=
  process_document (shrink_after policy) "documents/a.txt"
    (shrink_first_run policy).2.

(** A directory with a Markdown file and a text file of blanks. *)
Definition rejects_env : Env nat nat :=
  fixture_env
    {[ "documents/readme.md" := list_ascii_of_string "# title";
       "documents/blank.txt" := list_ascii_of_string "   " ]}
    ["readme.md"; "blank.txt"] KeepExisting.

(** ** Vocabulary for the further properties *)

(** The separator of a chunk id. *)
Definition underscore : ascii := "_"%char.

(** The metadata that the loop of [process_document] builds for [n]
    chunks when the clock reads [date] at its first iteration. *)
Definition chunk_metas (file_name file_ext : string) (date n : nat)
  : list ChunkMeta :=
  (λ i, {| chunk_file_name := file_name; chunk_index := i;
           chunk_total_chunks := n; chunk_file_type := file_ext;
           chunk_processed_date := date + i |}) <$> seq 0 n.

(** The record that [process_document] writes for a file of [n] chunks. *)
Definition doc_record (file_hash file_ext : string) (date n size : nat)
  : DocMeta :=
  {| hash := file_hash; processed_date := date; total_chunks := n;
     file_type := file_ext; file_size := size |}.

(** The metadata file holds what [document_metadata] holds, as it does
    when [__init__] has loaded it. *)
Definition metadata_in_sync {vector : Type} (st : Processor vector) : Prop :=
  load_metadata st = document_metadata st.

(** An environment whose metadata file cannot be written (what the
    failure leaves is as in [env]), one whose disk is full (the write
    stops after [open] has truncated the file), and one whose embedding
    model raises. *)
Definition read_only_disk {vector distance : Type} (env : Env vector distance)
  : Env vector distance :=
  {| documents_dir := documents_dir env; listdir := listdir env;
     isfile := isfile env; read_bytes := read_bytes env;
     md5_hexdigest := md5_hexdigest env; getsize := getsize env;
     pdf_pages := pdf_pages env; docx_paragraphs := docx_paragraphs env;
     read_utf8 := read_utf8 env; encode := encode env;
     store_online := store_online env; on_existing := on_existing env;
     query := query env; disk_writable := false;
     failed_write_leaves := failed_write_leaves env |}.

Definition full_disk {vector distance : Type} (env : Env vector distance)
  : Env vector distance :=
  {| documents_dir := documents_dir env; listdir := listdir env;
     isfile := isfile env; read_bytes := read_bytes env;
     md5_hexdigest := md5_hexdigest env; getsize := getsize env;
     pdf_pages := pdf_pages env; docx_paragraphs := docx_paragraphs env;
     read_utf8 := read_utf8 env; encode := encode env;
     store_online := store_online env; on_existing := on_existing env;
     query := query env; disk_writable := false;
     failed_write_leaves := λ _ _, None |}.

Definition failing_encoder {vector distance : Type} (env : Env vector distance)
  : Env vector distance :=
  {| documents_dir := documents_dir env; listdir := listdir env;
     isfile := isfile env; read_bytes := read_bytes env;
     md5_hexdigest := md5_hexdigest env; getsize := getsize env;
     pdf_pages := pdf_pages env; docx_paragraphs := docx_paragraphs env;
     read_utf8 := read_utf8 env;
     encode := λ _, inl (RuntimeError "model unavailable");
     store_online := store_online env; on_existing := on_existing env;
     query := query env; disk_writable := disk_writable env;
     failed_write_leaves := failed_write_leaves env |}.

(** The scenario of a disk that fills up: [notes.txt] was indexed and
    saved, then [paper.pdf] is processed while the disk is full.
    [notes_and_paper] is the collection that holds the chunk of each. *)
Definition notes_indexed : Processor nat :=
  (process_document batch_env "documents/notes.txt" fresh_processor).2.

Definition notes_and_paper : gmap string (Entry nat) :=
  <[ "paper.pdf_0" :=
       {| entry_embedding := 7%nat;
          entry_document := list_ascii_of_string "a paper";
          entry_metadata :=
            {| chunk_file_name := "paper.pdf"; chunk_index := 0;
               chunk_total_chunks := 1; chunk_file_type := ".pdf";
               chunk_processed_date := 2 |} |} ]>
    {[ "notes.txt_0" :=
         {| entry_embedding := 10%nat;
            entry_document := list_ascii_of_string "some notes";
            entry_metadata :=
              {| chunk_file_name := "notes.txt"; chunk_index := 0;
                 chunk_total_chunks := 1; chunk_file_type := ".txt";
                 chunk_processed_date := 0 |} |} ]}.

(** * The chat route of [main.py] *)

(** ** Data *)

Inductive Role : Type := RoleSystem | RoleUser | RoleAssistant.

(** An element of [conversation_history]. *)
Record ChatMessage : Type := {
  role : Role;
  message_content : text;
}.

(** The message that opens the conversation. *)
Definition system_message : ChatMessage :=
  {| role := RoleSystem;
     message_content :=
       list_ascii_of_string
         "You are a helpful AI assistant with access to a knowledge base of documents. When answering questions, use information from the documents when relevant and cite the source. Be concise, friendly, and provide accurate information." |}.

(** The body of a request to [/api/chat]: [request.get_json()] raises, or
    gives a dictionary with or without the key [message]. *)
Inductive ChatRequest : Type :=
  | NoJson (e : exn)
  | Json (message : option text).

(** The answers of the route: the reply with its time stamp and its
    sources (200), the empty message (400), an exception (500). *)
Inductive ChatResponse : Type :=
  | ChatReply (response : text) (timestamp : nat) (sources_used : list string)
  | ChatBadRequest
  | ChatServerError (e : exn).

Section Chat.

Context {vector distance : Type}.

(** The globals of [main.py]: the processor and the conversation. *)
Record App : Type := {
  doc_processor : Processor vector;
  conversation_history : list ChatMessage;
}.

Definition set_doc_processor (p : Processor vector) (app : App) : App :=
  {| doc_processor := p; conversation_history := conversation_history app |}.

(** [conversation_history.append(message)] *)
Definition append_history (message : ChatMessage) (app : App) : App :=
  {| doc_processor := doc_processor app;
     conversation_history := conversation_history app ++ [message] |}.

(** A method of [doc_processor] called from a route. *)
Definition on_processor {A} (f : Processor vector → A * Processor vector)
  : M App A :=
  λ app, let '(a, p) := f (doc_processor app) in (inr a, set_doc_processor p app).

(** ** The prompt *)

(** [f"Source {i} ({file_name}):\n{content[:300]}...\n\n"] *)
Definition source_block (i : nat) (doc : SearchHit distance) : text :=
  list_ascii_of_string "Source " ++ list_ascii_of_string (str_of_nat i) ++
  list_ascii_of_string " (" ++
  list_ascii_of_string (chunk_file_name (metadata doc)) ++
  list_ascii_of_string "):" ++ [newline] ++
  py_slice (content doc) 0 300 ++
  list_ascii_of_string "..." ++ [newline; newline].

(** The loop [for i, doc in enumerate(relevant_docs, 1)], from [i] on. *)
Fixpoint source_blocks (i : nat) (docs : list (SearchHit distance)) : text :=
  match docs with
  | [] => []
  | doc :: rest => source_block i doc ++ source_blocks (S i) rest
  end.

Definition build_context (relevant_docs : list (SearchHit distance)) : text :=
  match relevant_docs with
  | [] => []
  | _ =>
      list_ascii_of_string
        "Based on the available documents, here's what I found:" ++
      [newline; newline] ++ source_blocks 1 relevant_docs
  end.

Definition enhanced_message (user_message context : text) : text :=
  if is_empty context then user_message
  else list_ascii_of_string "Context from documents:" ++ [newline] ++
       context ++ [newline; newline] ++
       list_ascii_of_string "User question: " ++ user_message.

(** ** [chat] *)

(** The body of the [try] block; [llm] stands for
    [openai.ChatCompletion.create(...).choices[0].message.content]. *)
Definition chat_body (env : Env vector distance)
    (llm : list ChatMessage → exn + text) (request : ChatRequest)
  : M App ChatResponse :=
  data ← call (match request with
               | NoJson e => inl e
               | Json message => inr message
               end);
  let user_message := strip (default [] data) in
  if is_empty user_message then mret ChatBadRequest
  else
    relevant_docs ← on_processor (search_documents env user_message 3);
    let context := build_context relevant_docs in
    let enhanced := enhanced_message user_message context in
    modify (append_history {| role := RoleUser; message_content := enhanced |});;
    app ← get_state;
    assistant_response ← call (llm (conversation_history app));
    modify (append_history
              {| role := RoleAssistant;
                 message_content := assistant_response |});;
    timestamp ← on_processor (λ p, (clock p, tick p));
    mret (ChatReply assistant_response timestamp
            ((λ doc, chunk_file_name (metadata doc)) <$> relevant_docs)).

(** [chat]: an exception of the body is answered with the status 500. *)
Definition chat (env : Env vector distance)
    (llm : list ChatMessage → exn + text) (request : ChatRequest)
  : App → ChatResponse * App :=
  λ app, match chat_body env llm request app with
         | (inr response, app') => (response, app')
         | (inl e, app') => (ChatServerError e, app')
         end.

(** [clear_chat] *)
Definition clear_chat (app : App) : App :=
  {| doc_processor := doc_processor app;
     conversation_history := [system_message] |}.

(** The user message that [chat] appends for [user_message] when the
    processor is [p]. *)
Definition user_turn (env : Env vector distance) (p : Processor vector)
    (user_message : text) : ChatMessage :=
  {| role := RoleUser;
     message_content :=
       enhanced_message user_message
         (build_context (search_documents env user_message 3 p).1) |}.

End Chat.

Arguments App : clear implicits.

(** Two language models for the scenarios: one that answers, one that
    raises. *)
Definition answering_llm (history : list ChatMessage) : exn + text :=
  inr (list_ascii_of_string "It is in your notes.").

Definition failing_llm (history : list ChatMessage) : exn + text :=
  inl (RuntimeError "rate limit").

(** The application after the batch of the scenario, with a fresh
    conversation. *)
Definition batch_app : App nat :=
  {| doc_processor := (process_all_documents batch_env fresh_processor).2;
     conversation_history := [system_message] |}.

(** * Properties of the chunker *)

Section Chunker.

Implicit Types (t c d : text) (chunks : list text).

Lemma py_len_nonneg t : 0 ≤ py_len t.
Proof. unfold py_len. lia. Qed.

Lemma window_length t a w :
  length (window t a w) = (w `min` (length t - a))%nat.
Proof. unfold window. by rewrite length_take, length_drop. Qed.

(** A slice with non-negative bounds is a window. *)
Lemma py_slice_window t a w :
  0 ≤ a → 0 ≤ w →
  py_slice t a (a + w) = window t (Z.to_nat a) (Z.to_nat w).
Proof.
  intros Ha Hw. unfold py_slice, window, slice_bound, py_len.
  destruct (Z.ltb_spec a 0); [lia|].
  destruct (Z.ltb_spec (a + w) 0); [lia|].
  destruct (decide (a ≤ Z.of_nat (length t))) as [Hin|Hout].
  - rewrite (Z.min_l a) by lia.
    destruct (decide (a + w ≤ Z.of_nat (length t))).
    + rewrite Z.min_l by lia. f_equal. lia.
    + rewrite Z.min_r by lia.
      rewrite (take_ge _ (Z.to_nat w)) by (rewrite length_drop; lia).
      apply take_ge. rewrite length_drop. lia.
  - rewrite !Z.min_r by lia. rewrite Z.sub_diag. simpl.
    rewrite (drop_ge t (Z.to_nat a)) by lia. by rewrite take_nil.
Qed.

Lemma chunk_loop_more_fuel fuel extra t cs ov s r :
  chunk_loop fuel t cs ov s = Some r →
  chunk_loop (fuel + extra) t cs ov s = Some r.
Proof.
  revert s. induction fuel as [|fuel IH]; intros s; simpl; [done|].
  destruct (s.1 <? py_len t); auto.
Qed.

(** With a positive stride the loop is left after at most
    [len(text) - start] iterations. *)
Lemma chunk_loop_returns fuel t cs ov s :
  ov < cs → (Z.to_nat (py_len t - s.1) < fuel)%nat →
  is_Some (chunk_loop fuel t cs ov s).
Proof.
  intros Hstep. revert s. induction fuel as [|fuel IH]; intros s Hfuel; [lia|].
  simpl. destruct (Z.ltb_spec s.1 (py_len t)); [|by eexists].
  apply IH. destruct s as [start chunks]. simpl in *. lia.
Qed.

(** With a stride that is not positive the loop is never left, whatever
    the fuel, once it is entered. *)
Lemma chunk_loop_diverges fuel t cs ov s :
  cs ≤ ov → s.1 < py_len t → chunk_loop fuel t cs ov s = None.
Proof.
  intros Hstep. revert s. induction fuel as [|fuel IH]; intros s Hs; [done|].
  simpl. destruct (Z.ltb_spec s.1 (py_len t)); [|lia].
  apply IH. destruct s as [start chunks]. simpl in *. lia.
Qed.

(** What the loop computes: it appends the windows taken at the offsets
    [start], [start + stride], ... that lie below [len(text)]. *)
Lemma chunk_loop_windows fuel t cs ov start acc final out :
  chunk_loop fuel t cs ov (start, acc) = Some (final, out) →
  ∃ n : nat,
    out = acc ++ (nth_window t cs ov start <$> seq 0 n) ∧
    final = start + Z.of_nat n * (cs - ov) ∧
    py_len t ≤ final ∧
    ∀ i : nat, (i < n)%nat → start + Z.of_nat i * (cs - ov) < py_len t.
Proof.
  revert start acc. induction fuel as [|fuel IH]; intros start acc; [done|].
  simpl. destruct (Z.ltb_spec start (py_len t)) as [Hlt|Hge].
  - intros Hrun. apply IH in Hrun as (n & -> & -> & Hfinal & Hbelow).
    exists (S n). split_and!.
    + rewrite <- app_assoc. f_equal. simpl. f_equal.
      * unfold nth_window. f_equal; lia.
      * rewrite <- fmap_S_seq, <- list_fmap_compose.
        apply list_fmap_ext. intros _ i _. unfold nth_window. simpl.
        f_equal; lia.
    + lia.
    + lia.
    + intros [|i] Hi; [lia|]. specialize (Hbelow i). lia.
  - intros [= <- <-]. exists 0%nat. split_and!.
    + by rewrite app_nil_r.
    + lia.
    + lia.
    + lia.
Qed.

Lemma chunk_text_windows fuel t cs ov chunks :
  cs < py_len t → chunk_text fuel t cs ov = Some chunks →
  ∃ n : nat,
    chunks = nth_window t cs ov 0 <$> seq 0 n ∧
    py_len t ≤ Z.of_nat n * (cs - ov) ∧
    ∀ i : nat, (i < n)%nat → Z.of_nat i * (cs - ov) < py_len t.
Proof.
  intros Hlong. unfold chunk_text.
  destruct (Z.leb_spec (py_len t) cs); [lia|].
  destruct (chunk_loop fuel t cs ov (0, [])) as [[final out]|] eqn:Hrun; [|done].
  intros [= <-]. apply chunk_loop_windows in Hrun as (n & -> & -> & ? & ?).
  exists n. split_and!; [done|lia|]. intros i Hi. specialize (H1 i). lia.
Qed.

(** The first branch of [chunk_text]. *)
Lemma chunk_text_whole fuel t cs ov :
  py_len t ≤ cs → chunk_text fuel t cs ov = Some [t].
Proof.
  intros Hshort. unfold chunk_text.
  by destruct (Z.leb_spec (py_len t) cs); [|lia].
Qed.

Lemma chunk_text_returns t cs ov :
  ov < cs → is_Some (chunk_text (S (length t)) t cs ov).
Proof.
  intros Hstep. unfold chunk_text. destruct (py_len t <=? cs); [by eexists|].
  destruct (chunk_loop_returns (S (length t)) t cs ov (0, []) Hstep) as [r ->].
  - unfold py_len. simpl. lia.
  - by eexists.
Qed.

Lemma chunk_text_more_fuel fuel extra t cs ov chunks :
  chunk_text fuel t cs ov = Some chunks →
  chunk_text (fuel + extra) t cs ov = Some chunks.
Proof.
  unfold chunk_text. destruct (py_len t <=? cs); [done|].
  destruct (chunk_loop fuel t cs ov (0, [])) as [r|] eqn:Hrun; [|done].
  by rewrite (chunk_loop_more_fuel _ _ _ _ _ _ _ Hrun).
Qed.

Lemma chunk_text_default_runs t :
  chunk_text (S (length t)) t 1000 200 = Some (chunk_text_default t).
Proof.
  unfold chunk_text_default.
  destruct (chunk_text_returns t 1000 200) as [chunks ->]; [lia|done].
Qed.

End Chunker.

Section ChunkerWindows.

Implicit Types (t c d : text) (chunks : list text).

(** With [0 ≤ overlap < chunk_size] every chunk is a window of width
    [chunk_size] taken at a multiple of the stride. *)
Lemma nth_window_window t cs ov i :
  0 ≤ ov < cs →
  nth_window t cs ov 0 i =
  window t (i * Z.to_nat (cs - ov)) (Z.to_nat (cs - ov) + Z.to_nat ov).
Proof.
  intros Hov. unfold nth_window.
  assert (0 ≤ Z.of_nat i * (cs - ov)) by (apply Z.mul_nonneg_nonneg; lia).
  rewrite py_slice_window by lia. f_equal; [|lia].
  rewrite Z.add_0_l, Z2Nat.inj_mul, Nat2Z.id by lia. done.
Qed.

Lemma chunks_lookup t cs ov n i c :
  (nth_window t cs ov 0 <$> seq 0 n) !! i = Some c →
  (i < n)%nat ∧ c = nth_window t cs ov 0 i.
Proof.
  rewrite list_lookup_fmap. intros Hc.
  destruct (seq 0 n !! i) as [j|] eqn:Hj; [|done].
  apply lookup_seq in Hj as [-> ?]. by injection Hc as <-.
Qed.

Lemma residues_windows t step k m :
  window t 0 (step + k) ++
    concat ((λ i, drop k (window t (i * step) (step + k))) <$> seq 1 m)
  = take (m * step + (step + k)) t.
Proof.
  induction m as [|m IH].
  - simpl. by rewrite app_nil_r.
  - rewrite seq_S, fmap_app, concat_app, app_assoc, IH. simpl.
    rewrite app_nil_r. unfold window.
    rewrite skipn_firstn_comm, drop_drop.
    replace (step + k - k)%nat with step by lia.
    replace (step + m * step + k)%nat with (m * step + (step + k))%nat by lia.
    rewrite take_take_drop. f_equal. lia.
Qed.

Lemma windows_overlap t a step k :
  (a + step + k ≤ length t)%nat →
  overlap_exactly k (window t a (step + k)) (window t (a + step) (step + k)).
Proof.
  intros Hfit. unfold overlap_exactly, last_chars.
  rewrite (window_length t a).
  replace ((step + k) `min` (length t - a) - k)%nat with step by lia.
  unfold window. rewrite skipn_firstn_comm, drop_drop, take_take.
  replace (step + k - step)%nat with k by lia.
  replace (k `min` (step + k))%nat with k by lia.
  rewrite length_take, length_drop. split_and!; [lia|lia|done].
Qed.

End ChunkerWindows.

(** C5. A text that is not longer than [chunk_size] (the empty text
    included) is returned whole, as the only chunk; the loop is not
    entered, so that no fuel is needed and [overlap] is not looked at. *)
Theorem chunk_text_short (fuel : nat) (t : text) (cs ov : Z) :
  py_len t ≤ cs → chunk_text fuel t cs ov = Some [t].
Proof.
  apply chunk_text_whole.
Qed.

Lemma chunk_text_short_witness :
  chunk_text 0 [] 1000 200 = Some [[]] ∧
  chunk_text 0 (list_ascii_of_string "hello") 5 7 =
    Some [list_ascii_of_string "hello"].
Proof.
  split; apply chunk_text_short; vm_compute; discriminate.
Defined.

(** C3. For a text longer than [chunk_size] and [overlap < chunk_size],
    every iteration of the loop strictly increases [start], and the loop
    is left, after at most [len(text)] iterations, with [start] at or
    beyond [len(text)]; [chunk_text] then returns the chunks collected. *)
Theorem chunk_text_loop_terminates (t : text) (cs ov : Z) :
  cs < py_len t → ov < cs →
  (∀ s, s.1 < (loop_body t cs ov s).1) ∧
  ∃ final chunks,
    py_len t ≤ final ∧
    (∀ fuel, (length t < fuel)%nat →
       chunk_loop fuel t cs ov (0, []) = Some (final, chunks)) ∧
    chunk_text (S (length t)) t cs ov = Some chunks.
Proof.
  intros Hlong Hstep. split.
  - intros [start chunks]. simpl. lia.
  - destruct (chunk_loop_returns (S (length t)) t cs ov (0, []) Hstep)
      as [[final chunks] Hrun]; [unfold py_len; simpl; lia|].
    exists final, chunks. split_and!.
    + by apply chunk_loop_windows in Hrun as (n & _ & _ & ? & _).
    + intros fuel Hfuel.
      replace fuel with (S (length t) + (fuel - S (length t)))%nat by lia.
      by apply chunk_loop_more_fuel.
    + unfold chunk_text. destruct (Z.leb_spec (py_len t) cs); [lia|].
      by rewrite Hrun.
Qed.

Lemma chunk_text_loop_terminates_witness :
  ∃ final chunks,
    py_len (list_ascii_of_string "abcde") ≤ final ∧
    (∀ fuel, (5 < fuel)%nat →
       chunk_loop fuel (list_ascii_of_string "abcde") 4 3 (0, [])
       = Some (final, chunks)) ∧
    chunk_text 6 (list_ascii_of_string "abcde") 4 3 = Some chunks.
Proof.
  apply (chunk_text_loop_terminates (list_ascii_of_string "abcde") 4 3);
    vm_compute; reflexivity.
Defined.

(** C10. For [chunk_size > 0] and [overlap < chunk_size], [chunk_text]
    returns, for every text, at least one chunk, and no chunk is longer
    than [chunk_size]. *)
Theorem chunk_text_nonempty_bounded (t : text) (cs ov : Z) :
  0 < cs → ov < cs →
  ∃ chunks,
    (∀ fuel, (length t < fuel)%nat → chunk_text fuel t cs ov = Some chunks) ∧
    chunks ≠ [] ∧
    Forall (λ c, py_len c ≤ cs) chunks.
Proof.
  intros Hcs Hstep.
  destruct (chunk_text_returns t cs ov Hstep) as [chunks Hrun].
  exists chunks. split_and!.
  - intros fuel Hfuel.
    replace fuel with (S (length t) + (fuel - S (length t)))%nat by lia.
    by apply chunk_text_more_fuel.
  - destruct (decide (py_len t ≤ cs)) as [Hshort|Hlong].
    + rewrite chunk_text_whole in Hrun by done. by injection Hrun as <-.
    + apply chunk_text_windows in Hrun as (n & -> & Hn & _); [|lia].
      destruct n; [lia|done].
  - destruct (decide (py_len t ≤ cs)) as [Hshort|Hlong].
    + rewrite chunk_text_whole in Hrun by done. injection Hrun as <-.
      by repeat constructor.
    + apply chunk_text_windows in Hrun as (n & -> & _ & _); [|lia].
      apply Forall_fmap, Forall_forall. intros i _. simpl.
      assert (0 ≤ Z.of_nat i * (cs - ov)) by (apply Z.mul_nonneg_nonneg; lia).
      unfold nth_window. rewrite py_slice_window by lia.
      unfold py_len. rewrite window_length. lia.
Qed.

Lemma chunk_text_nonempty_bounded_witness :
  ∃ chunks,
    (∀ fuel, (5 < fuel)%nat →
       chunk_text fuel (list_ascii_of_string "abcde") 2 (-1) = Some chunks) ∧
    chunks ≠ [] ∧
    Forall (λ c, py_len c ≤ 2) chunks.
Proof.
  apply (chunk_text_nonempty_bounded (list_ascii_of_string "abcde") 2 (-1));
    lia.
Defined.

(** C1, as the specification states it, does not hold: on ['a' * 2500]
    the loop is entered a fourth time, at offset 2400, which is still
    below the length of the text. *)
Lemma chunk_text_scenario_not_three_windows :
  chunk_text 5 scenario_text 1000 200 ≠
    Some [py_slice scenario_text 0 1000;
          py_slice scenario_text 800 1800;
          py_slice scenario_text 1600 2500].
Proof.
  intros H. apply (f_equal (fmap (M:=option) length)) in H.
  vm_compute in H. discriminate H.
Qed.

(** C1, amended. On ['a' * 2500] with [chunk_size = 1000] and
    [overlap = 200], [chunk_text] returns the four windows that start at
    the offsets 0, 800, 1600 and 2400: the third covers [[1600:2500]] and
    has length 900, and the last covers [[2400:2500]] and has length
    100. *)
Theorem chunk_text_scenario_four_windows (extra : nat) :
  chunk_text (5 + extra) scenario_text 1000 200 =
    Some [py_slice scenario_text 0 1000;
          py_slice scenario_text 800 1800;
          py_slice scenario_text 1600 2500;
          py_slice scenario_text 2400 2500] ∧
  length (py_slice scenario_text 1600 2500) = 900%nat ∧
  length (py_slice scenario_text 2400 2500) = 100%nat.
Proof.
  split; [|by vm_compute].
  apply chunk_text_more_fuel. by vm_compute.
Qed.

(** C4, as the specification states it, does not hold.  With
    [chunk_size = 4] and [overlap = 3] the text [abcde] gives five chunks,
    and the third and fourth, [cde] and [de], which are not the last
    pair, share two characters, not three.  With [chunk_size = 2] and
    [overlap = -1], which is below [chunk_size], the character [c] is in
    no chunk. *)
Lemma chunk_text_overlap_counterexample :
  chunk_text 6 (list_ascii_of_string "abcde") 4 3 =
    Some (list_ascii_of_string <$> ["abcd"; "bcde"; "cde"; "de"; "e"]) ∧
  ¬ all_but_last_overlap 3
      (list_ascii_of_string <$> ["abcd"; "bcde"; "cde"; "de"; "e"]) ∧
  chunk_text 3 (list_ascii_of_string "abcde") 2 (-1) =
    Some (list_ascii_of_string <$> ["ab"; "de"]) ∧
  residues (-1) (list_ascii_of_string <$> ["ab"; "de"]) ≠
    list_ascii_of_string "abcde".
Proof.
  split_and!; [by vm_compute| |by vm_compute|by vm_compute].
  intros Hall.
  destruct (Hall 2%nat (list_ascii_of_string "cde") (list_ascii_of_string "de"))
    as [Hlen _]; [done|done|by eexists|].
  vm_compute in Hlen. discriminate Hlen.
Qed.

(** C4, amended. For a text longer than [chunk_size] and
    [0 ≤ overlap < chunk_size], [chunk_text] returns chunks such that
    - the first chunk followed by what each later chunk has beyond its
      first [overlap] characters is the text;
    - two consecutive chunks overlap by exactly [overlap] characters
      whenever the second has at least [overlap] characters;
    - when [2 * overlap ≤ chunk_size], that is the case of every pair but
      the last. *)
Theorem chunk_text_overlap_residues (t : text) (cs ov : Z) :
  cs < py_len t → 0 ≤ ov < cs →
  ∃ chunks,
    chunk_text (S (length t)) t cs ov = Some chunks ∧
    residues ov chunks = t ∧
    (∀ i c d, chunks !! i = Some c → chunks !! S i = Some d →
       (Z.to_nat ov ≤ length d)%nat → overlap_exactly (Z.to_nat ov) c d) ∧
    (2 * ov ≤ cs → all_but_last_overlap ov chunks).
Proof.
  intros Hlong Hov.
  destruct (chunk_text_returns t cs ov) as [chunks Hrun]; [lia|].
  exists chunks. split; [done|].
  apply chunk_text_windows in Hrun as (n & -> & Hn & Hbelow); [|done].
  set (step := Z.to_nat (cs - ov)). set (k := Z.to_nat ov).
  assert (Hstep : Z.of_nat step = cs - ov) by lia.
  assert (Hlen : (length t ≤ n * step)%nat).
  { unfold py_len in Hn. rewrite <- Hstep, <- Nat2Z.inj_mul in Hn. lia. }
  assert (Hbelow' : ∀ i, (i < n)%nat → (i * step < length t)%nat).
  { intros i Hi. specialize (Hbelow i Hi). unfold py_len in Hbelow.
    rewrite <- Hstep, <- Nat2Z.inj_mul in Hbelow. lia. }
  assert (Hpair : ∀ i c d,
    (nth_window t cs ov 0 <$> seq 0 n) !! i = Some c →
    (nth_window t cs ov 0 <$> seq 0 n) !! S i = Some d →
    (k ≤ length d)%nat → overlap_exactly k c d).
  { intros i c d Hc Hd Hk.
    apply chunks_lookup in Hc as [_ ->]. apply chunks_lookup in Hd as [Hi ->].
    apply Hbelow' in Hi.
    rewrite !nth_window_window in * by done. fold step k in Hk |- *.
    rewrite window_length in Hk.
    replace (S i * step)%nat with (i * step + step)%nat in * by lia.
    apply windows_overlap. lia. }
  split_and!.
  - destruct n as [|m]; [unfold py_len in *; simpl in Hlen; lia|].
    change (seq 0 (S m)) with (0%nat :: seq 1 m). rewrite fmap_cons.
    unfold residues. rewrite <- list_fmap_compose.
    rewrite (list_fmap_ext _ (λ i, drop k (window t (i * step) (step + k))));
      [|intros _ i _; simpl; by rewrite nth_window_window].
    rewrite nth_window_window by done. fold step k. simpl.
    rewrite residues_windows. apply take_ge. simpl in Hlen. lia.
  - done.
  - intros Hhalf i c d Hc Hd [e He]. apply (Hpair i c d Hc Hd).
    apply chunks_lookup in Hd as [_ ->]. apply chunks_lookup in He as [Hi _].
    apply Hbelow' in Hi. rewrite nth_window_window by done. fold step k.
    rewrite window_length. simpl in Hi. lia.
Qed.

Lemma chunk_text_overlap_residues_witness :
  ∃ chunks,
    chunk_text 9 (list_ascii_of_string "abcdefgh") 4 1 = Some chunks ∧
    residues 1 chunks = list_ascii_of_string "abcdefgh" ∧
    (∀ i c d, chunks !! i = Some c → chunks !! S i = Some d →
       (Z.to_nat 1 ≤ length d)%nat → overlap_exactly (Z.to_nat 1) c d) ∧
    (2 * 1 ≤ 4 → all_but_last_overlap 1 chunks).
Proof.
  apply (chunk_text_overlap_residues (list_ascii_of_string "abcdefgh") 4 1).
  - vm_compute. reflexivity.
  - lia.
Defined.

(** * Properties of the processor *)

Section Processor.

Context {vector distance : Type}.
Implicit Types (env : Env vector distance) (st : Processor vector).

Ltac run :=
  unfold mbind, M_bind, bind, mret, M_ret, ret, call, raise, modify,
    get_state in *; simpl in *.

(** An exception raised in the body of [process_document] is reported as
    [False], in the state reached when it was raised. *)
Lemma process_document_catches env path st e st' :
  process_document_body env path st = (inl e, st') →
  process_document env path st = (false, st').
Proof. intros Hbody. unfold process_document, try_except. by rewrite Hbody. Qed.

Lemma process_document_body_returns env path st b st' :
  process_document_body env path st = (inr b, st') →
  process_document env path st = (b, st').
Proof. intros Hbody. unfold process_document, try_except. by rewrite Hbody. Qed.

Lemma collection_ticks n st :
  collection (Nat.iter n tick st) = collection st.
Proof. induction n as [|n IH]; [done|]. simpl. exact IH. Qed.

(** The loop over the chunks does not raise; it reads the clock once per
    chunk and numbers the chunks from [i]. *)
Lemma chunk_records_run file_name file_ext total i chunks st :
  ∃ metas,
    chunk_records file_name file_ext total i chunks st =
      (inr (chunk_id file_name <$> seq i (length chunks), metas),
       Nat.iter (length chunks) tick st) ∧
    length metas = length chunks.
Proof.
  revert i st. induction chunks as [|c chunks IH]; intros i st.
  - exists []. done.
  - simpl. run.
    destruct (IH (S i) (tick st)) as (metas & -> & Hlen).
    eexists (_ :: metas). split; [|simpl; by rewrite Hlen].
    f_equal. apply Nat.iter_swap.
Qed.

(** [collection.add] never removes a record. *)
Lemma collection_add_keeps env (c c' : gmap string (Entry vector))
    embeddings docs metas ids id :
  collection_add env c embeddings docs metas ids = inr c' →
  is_Some (c !! id) → is_Some (c' !! id).
Proof.
  unfold collection_add. intros Hadd Hid.
  destruct (store_online env); [|done]. simpl in Hadd.
  destruct (add_records ids embeddings docs metas) as [records|]; [|done].
  destruct (bool_decide (NoDup ids)); [|done]. simpl in Hadd.
  destruct (on_existing env).
  - injection Hadd as <-. apply lookup_union_is_Some. by left.
  - injection Hadd as <-. apply lookup_union_is_Some. by right.
  - destruct (existsb _ ids); [done|]. injection Hadd as <-.
    apply lookup_union_is_Some. by right.
Qed.

(** Indexing changes the collection through [collection.add] only. *)
Lemma index_document_collection env path file_name file_hash file_ext t st r st' :
  index_document env path file_name file_hash file_ext t st = (r, st') →
  collection st' = collection st ∨
  ∃ embeddings docs metas ids,
    collection_add env (collection st) embeddings docs metas ids
    = inr (collection st').
Proof.
  unfold index_document, encode_texts, now, save_metadata. run.
  destruct (encode env (chunk_text_default t)) as [e|embeddings]; simpl.
  { intros [= <- <-]. by left. }
  destruct (chunk_records_run file_name file_ext
              (length (chunk_text_default t)) 0 (chunk_text_default t)
              (count_encode st)) as (metas & -> & _).
  simpl. rewrite collection_ticks. simpl.
  destruct (collection_add env (collection st) embeddings _ metas _)
    as [e|c] eqn:Hadd; simpl.
  { intros [= <- <-]. left. by rewrite collection_ticks. }
  destruct (getsize env path) as [e|size]; simpl.
  { intros [= <- <-]. right. simpl. eauto. }
  destruct (disk_writable env); simpl; intros [= <- <-]; right; simpl; eauto.
Qed.

Lemma process_document_collection env path st :
  collection (process_document env path st).2 = collection st ∨
  ∃ embeddings docs metas ids,
    collection_add env (collection st) embeddings docs metas ids
    = inr (collection (process_document env path st).2).
Proof.
  unfold process_document, try_except, process_document_body, get_file_hash.
  run. destruct (read_bytes env path) as [e|bytes]; simpl; [by left|].
  destruct (up_to_date st _ _); simpl; [by left|].
  destruct (extract_text env _ path) as [t|]; simpl; [|by left].
  destruct (is_empty (strip t)); simpl; [by left|].
  destruct (index_document env path _ _ _ t st) as [r st'] eqn:Hindex.
  apply index_document_collection in Hindex.
  destruct r; simpl; done.
Qed.

(** No call to [process_document] removes a record of the collection:
    an id that was stored stays stored. *)
Lemma process_document_never_deletes env path st id :
  is_Some (collection st !! id) →
  is_Some (collection (process_document env path st).2 !! id).
Proof.
  intros Hid.
  destruct (process_document_collection env path st)
    as [->|(embeddings & docs & metas & ids & Hadd)]; [done|].
  by eapply collection_add_keeps.
Qed.

Lemma process_listing_app env before after results st :
  process_listing env (before ++ after) results st =
  process_listing env after (process_listing env before results st).1
    (process_listing env before results st).2.
Proof.
  revert results st. induction before as [|f before IH]; intros results st.
  - done.
  - simpl. destruct (isfile env _); [|apply IH].
    destruct (process_document env _ st) as [ok st']. apply IH.
Qed.

Lemma process_listing_other env names results st filename :
  filename ∉ names →
  (process_listing env names results st).1 !! filename = results !! filename.
Proof.
  revert results st. induction names as [|f names IH]; intros results st Hnot.
  - done.
  - apply not_elem_of_cons in Hnot as [Hne Hnot]. simpl.
    destruct (isfile env _); [|by apply IH].
    destruct (process_document env _ st) as [ok st'].
    rewrite IH by done. by apply lookup_insert_ne.
Qed.

Lemma process_listing_dom env names results st :
  dom (process_listing env names results st).1 =
  dom results ∪
  list_to_set
    (List.filter (λ f, isfile env (path_join (documents_dir env) f)) names).
Proof.
  revert results st. induction names as [|f names IH]; intros results st.
  - simpl. by rewrite (right_id_L ∅ (∪)).
  - simpl. destruct (isfile env _); [|apply IH].
    destruct (process_document env _ st) as [ok st'].
    rewrite IH, dom_insert_L. simpl.
    by rewrite (comm_L (∪) {[f]} (dom results)), <- (assoc_L (∪)).
Qed.

(** The state after the loop is the state after the calls to
    [process_document] on the files of the listing, one after the
    other. *)
Lemma process_listing_state env names results st :
  (process_listing env names results st).2 =
  fold_left
    (λ s filename,
       (process_document env (path_join (documents_dir env) filename) s).2)
    (List.filter (λ f, isfile env (path_join (documents_dir env) f)) names)
    st.
Proof.
  revert results st. induction names as [|f names IH]; intros results st.
  - done.
  - simpl. destruct (isfile env _); [|apply IH].
    simpl. destruct (process_document env _ st) as [ok st']. apply IH.
Qed.

End Processor.

(** C6. Processing a file whose name has a metadata record with the hash
    of its present content returns [True] and leaves the processor as it
    was: the collection, the metadata and the metadata file are
    unchanged, and [encode] is not called. *)
Theorem process_document_unchanged_file {vector distance : Type}
    (env : Env vector distance) (st : Processor vector) (path : string)
    (bytes : list Byte.byte) (record : DocMeta) :
  read_bytes env path = inr bytes →
  document_metadata st !! basename path = Some record →
  hash record = md5_hexdigest env bytes →
  process_document env path st = (true, st) ∧
  encode_calls (process_document env path st).2 = encode_calls st.
Proof.
  intros Hread Hrecord Hhash.
  assert (process_document env path st = (true, st)) as ->; [|done].
  unfold process_document, try_except, process_document_body, get_file_hash.
  unfold mbind, M_bind, bind, call, get_state, mret, M_ret, ret.
  rewrite Hread. simpl. unfold up_to_date.
  by rewrite Hrecord, Hhash, String.eqb_refl.
Qed.

Lemma process_document_unchanged_file_witness :
  process_document (shrink_after KeepExisting) "documents/a.txt"
    (shrink_second_run KeepExisting).2
  = (true, (shrink_second_run KeepExisting).2).
Proof.
  eapply process_document_unchanged_file; vm_compute; reflexivity.
Defined.
(** The extension is unsupported exactly when it is none of the three. *)
Lemma extract_text_unsupported {vector distance : Type}
    (env : Env vector distance) (file_ext path : string) :
  extract_text env file_ext path = None ↔
  file_ext ≠ ".pdf" ∧ file_ext ≠ ".docx" ∧ file_ext ≠ ".txt".
Proof.
  unfold extract_text.
  destruct (String.eqb_spec file_ext ".pdf");
    destruct (String.eqb_spec file_ext ".docx");
    destruct (String.eqb_spec file_ext ".txt");
    (split; [intros H; try discriminate H; done | intros (? & ? & ?); congruence]).
Qed.


(** C9. When [process_document] returns [False] because the extension is
    none of [.pdf], [.docx] and [.txt], or because the extracted text is
    empty once stripped, the processor is left as it was: nothing is
    added to the collection and no metadata is written. *)
Theorem process_document_rejects_atomically {vector distance : Type}
    (env : Env vector distance) (st : Processor vector) (path : string)
    (bytes : list Byte.byte) :
  read_bytes env path = inr bytes →
  up_to_date st (basename path) (md5_hexdigest env bytes) = false →
  let file_ext := lower (splitext_ext (basename path)) in
  (file_ext ≠ ".pdf" ∧ file_ext ≠ ".docx" ∧ file_ext ≠ ".txt") ∨
  (∃ t, extract_text env file_ext path = Some t ∧ strip t = []) →
  process_document env path st = (false, st).
Proof.
  intros Hread Hstale file_ext Hreject. subst file_ext.
  unfold process_document, try_except, process_document_body, get_file_hash.
  unfold mbind, M_bind, bind, call, get_state, mret, M_ret, ret.
  rewrite Hread. simpl. rewrite Hstale.
  destruct Hreject as [Hext | (t & -> & ->)]; [|done].
  by rewrite (proj2 (extract_text_unsupported env _ path) Hext).
Qed.

Lemma process_document_rejects_atomically_witness :
  process_document rejects_env "documents/readme.md" fresh_processor
    = (false, fresh_processor) ∧
  process_document rejects_env "documents/blank.txt" fresh_processor
    = (false, fresh_processor).
Proof.
  split.
  - eapply process_document_rejects_atomically;
      [vm_compute; reflexivity | vm_compute; reflexivity |].
    left. vm_compute. by split_and!.
  - eapply process_document_rejects_atomically;
      [vm_compute; reflexivity | vm_compute; reflexivity |].
    right. eexists. split; vm_compute; reflexivity.
Defined.

(** C8. [process_all_documents] returns a dictionary whose keys are the
    files of the directory, so that [N] files give [N] results.  Every
    file of the listing is processed: the processor is left in the state
    reached by calling [process_document] on the files one after the
    other, in the order of the listing, and the result of a file is what
    [process_document] returns for it in the state left by the files
    listed before it, whether those succeeded or not.  An exception
    raised while a document is processed is reported as [False]. *)
Theorem process_all_documents_reports_every_file {vector distance : Type}
    (env : Env vector distance) (st : Processor vector) :
  dom (process_all_documents env st).1 = list_to_set (listed_files env) ∧
  (NoDup (listdir env) →
   size (process_all_documents env st).1 = length (listed_files env)) ∧
  (process_all_documents env st).2 =
    fold_left
      (λ s filename,
         (process_document env (path_join (documents_dir env) filename) s).2)
      (listed_files env) st ∧
  (∀ before filename after,
     listdir env = before ++ filename :: after →
     filename ∉ after →
     isfile env (path_join (documents_dir env) filename) = true →
     (process_all_documents env st).1 !! filename =
     Some (process_document env (path_join (documents_dir env) filename)
             (fold_left
                (λ s f,
                   (process_document env (path_join (documents_dir env) f) s).2)
                (List.filter
                   (λ f, isfile env (path_join (documents_dir env) f)) before)
                st)).1) ∧
  (∀ path st0 e st1,
     process_document_body env path st0 = (inl e, st1) →
     process_document env path st0 = (false, st1)).
Proof.
  assert (Hdom : dom (process_all_documents env st).1
                 = list_to_set (listed_files env)).
  { unfold process_all_documents, listed_files.
    rewrite process_listing_dom, dom_empty_L. apply (left_id_L ∅ (∪)). }
  split_and!.
  - exact Hdom.
  - intros Hnodup. rewrite <- size_dom, Hdom. apply size_list_to_set.
    apply NoDup_ListNoDup, List.NoDup_filter, NoDup_ListNoDup, Hnodup.
  - unfold process_all_documents, listed_files. apply process_listing_state.
  - intros before filename after Hlist Hlast Hfile.
    unfold process_all_documents. rewrite Hlist, process_listing_app.
    rewrite <- (process_listing_state env before ∅ st).
    simpl. rewrite Hfile.
    destruct (process_document env _ _) as [ok st'].
    rewrite process_listing_other by done. simpl. apply lookup_insert_eq.
  - intros path st0 e st1. apply process_document_catches.
Qed.

Lemma process_all_documents_reports_every_file_witness :
  size (process_all_documents batch_env fresh_processor).1 = 4%nat ∧
  (process_all_documents batch_env fresh_processor).1 !! "paper.pdf"
    = Some true ∧
  process_document batch_env "documents/locked.txt" fresh_processor
    = (false, fresh_processor) ∧
  size (collection (process_all_documents batch_env fresh_processor).2)
    = 2%nat ∧
  total_chunks <$>
    document_metadata (process_all_documents batch_env fresh_processor).2
      !! "paper.pdf" = Some 1%nat.
Proof.
  destruct (process_all_documents_reports_every_file batch_env fresh_processor)
    as (_ & Hsize & Hstate & Hresult & Hcatch).
  split_and!.
  - rewrite Hsize; [reflexivity|]. by compute_done.
  - rewrite (Hresult ["notes.txt"; "broken.pdf"; "locked.txt"] "paper.pdf" []);
      [by vm_compute | reflexivity | apply not_elem_of_nil | reflexivity].
  - apply (Hcatch _ _ OSError). by vm_compute.
  - rewrite Hstate. by vm_compute.
  - rewrite Hstate. by vm_compute.
Defined.

(** The test environment answers a query from the collection. *)
Lemma fixture_query_from_collection files names policy :
  query_from_collection (fixture_env files names policy).
Proof.
  intros c v n r docs d [= <-]. simpl. intros Hdocs Hd.
  apply list_elem_of_singleton in Hdocs as ->.
  apply list_elem_of_fmap in Hd as (e & -> & He).
  apply elem_of_take in He as (i & He & _).
  apply list_elem_of_lookup_2, list_elem_of_fmap in He as ([id e'] & -> & He).
  exists id, e'. split; [|done]. by apply elem_of_map_to_list.
Qed.

(** C7. [search_documents] returns a list in every case, and the empty
    list whenever a step fails: an exception raised in its body, a
    failure of [encode], a failure of [collection.query], or an empty
    collection (of which [query] can return no document). *)
Theorem search_documents_failure_is_empty {vector distance : Type}
    (env : Env vector distance) (st : Processor vector) (q : text) (n : Z) :
  (∀ e st', search_documents_body env q n st = (inl e, st') →
     search_documents env q n st = ([], st')) ∧
  (∀ e, encode env [q] = inl e → (search_documents env q n st).1 = []) ∧
  (∀ v e, encode env [q] = inr v → query env (collection st) v n = inl e →
     (search_documents env q n st).1 = []) ∧
  (query_from_collection env → collection st = ∅ →
     (search_documents env q n st).1 = []).
Proof.
  split_and!.
  - intros e st' Hbody. unfold search_documents, try_except. by rewrite Hbody.
  - intros e Hencode.
    unfold search_documents, try_except, search_documents_body, encode_texts.
    unfold mbind, M_bind, bind, call, modify, raise. simpl.
    by rewrite Hencode.
  - intros v e Hencode Hquery.
    unfold search_documents, try_except, search_documents_body, encode_texts.
    unfold mbind, M_bind, bind, call, modify, raise, get_state, mret, M_ret, ret.
    simpl. rewrite Hencode. simpl. by rewrite Hquery.
  - intros Hsound Hempty.
    unfold search_documents, try_except, search_documents_body, encode_texts.
    unfold mbind, M_bind, bind, call, modify, raise, get_state, mret, M_ret, ret.
    simpl. destruct (encode env [q]) as [e|v]; [done|]. simpl.
    destruct (query env (collection st) v n) as [e|r] eqn:Hquery; [done|].
    simpl. unfold item.
    destruct (documents r) as [|docs rest] eqn:Hdocs; [done|]. simpl.
    destruct docs as [|d docs]; [done|]. exfalso.
    destruct (Hsound (collection st) v n r (d :: docs) d Hquery)
      as (id & entry & Hentry & _).
    + rewrite Hdocs. apply list_elem_of_here.
    + apply list_elem_of_here.
    + by rewrite Hempty, lookup_empty in Hentry.
Qed.

Lemma search_documents_failure_is_empty_witness :
  (search_documents batch_env (list_ascii_of_string "notes") 5
     fresh_processor).1 = [].
Proof.
  apply (search_documents_failure_is_empty batch_env fresh_processor
           (list_ascii_of_string "notes") 5).
  - apply fixture_query_from_collection.
  - reflexivity.
Defined.

(** C2 does not hold of [process_document].  [a.txt] is indexed with 1001
    characters, which gives the chunks [a.txt_0] and [a.txt_1], then with
    one character, which gives the single chunk [a.txt_0].  Whatever
    [add] does with an id that is already stored, the record [a.txt_1]
    of the first version is still in the collection after the second
    run, with its 201 characters; when [add] accepts the call, the second
    run returns [True] and records one chunk for the file. *)
Theorem reprocess_leaves_stale_chunk (policy : OnExisting) :
  (shrink_first_run policy).1 = true ∧
  total_chunks <$> document_metadata (shrink_first_run policy).2 !! "a.txt"
    = Some 2%nat ∧
  (shrink_second_run policy).1
    = match policy with RejectExisting => false | _ => true end ∧
  total_chunks <$> document_metadata (shrink_second_run policy).2 !! "a.txt"
    = Some (match policy with RejectExisting => 2 | _ => 1 end)%nat ∧
  entry_document <$> collection (shrink_second_run policy).2 !! "a.txt_1"
    = Some (repeat "a"%char 201).
Proof. destruct policy; by vm_compute. Qed.

(** * Further properties of the chunker *)

(** X1. When [overlap] is not below [chunk_size], the stride is not
    positive and [chunk_text] never returns on a non-empty text longer
    than [chunk_size]: no amount of fuel gives a result. *)
Theorem chunk_text_never_returns (fuel : nat) (t : text) (cs ov : Z) :
  cs < py_len t → 0 < py_len t → cs ≤ ov →
  chunk_text fuel t cs ov = None.
Proof.
  intros Hlong Hne Hstep. unfold chunk_text.
  destruct (Z.leb_spec (py_len t) cs); [lia|].
  by rewrite chunk_loop_diverges.
Qed.

Lemma chunk_text_never_returns_witness :
  chunk_text 1000 (list_ascii_of_string "abcde") 4 4 = None.
Proof.
  apply chunk_text_never_returns; vm_compute; congruence.
Defined.

(** X2. The [i]-th chunk of a text longer than [chunk_size] is the slice
    [text[i*stride : i*stride + chunk_size]], with
    [stride = chunk_size - overlap], and its offset is below
    [len(text)]. *)
Theorem chunk_text_nth_chunk (fuel : nat) (t : text) (cs ov : Z)
    (chunks : list text) (i : nat) (c : text) :
  cs < py_len t →
  chunk_text fuel t cs ov = Some chunks →
  chunks !! i = Some c →
  c = py_slice t (Z.of_nat i * (cs - ov)) (Z.of_nat i * (cs - ov) + cs) ∧
  Z.of_nat i * (cs - ov) < py_len t.
Proof.
  intros Hlong Hrun Hc.
  apply chunk_text_windows in Hrun as (n & -> & _ & Hbelow); [|done].
  apply chunks_lookup in Hc as [Hi ->]. split; [|by apply Hbelow].
  unfold nth_window. by rewrite Z.add_0_l.
Qed.

Lemma chunk_text_nth_chunk_witness :
  list_ascii_of_string "cdef" =
    py_slice (list_ascii_of_string "abcdefgh") (Z.of_nat 1 * (4 - 2))
      (Z.of_nat 1 * (4 - 2) + 4) ∧
  Z.of_nat 1 * (4 - 2) < py_len (list_ascii_of_string "abcdefgh").
Proof.
  apply (chunk_text_nth_chunk 9 (list_ascii_of_string "abcdefgh") 4 2
           (list_ascii_of_string <$> ["abcd"; "cdef"; "efgh"; "gh"]));
    by vm_compute.
Defined.

(** X3. With [overlap < chunk_size], a text longer than [chunk_size] is
    cut into [ceil(len(text) / stride)] chunks. *)
Theorem chunk_text_count (t : text) (cs ov : Z) :
  cs < py_len t → ov < cs →
  ∃ chunks,
    chunk_text (S (length t)) t cs ov = Some chunks ∧
    Z.of_nat (length chunks) = (py_len t + (cs - ov) - 1) / (cs - ov).
Proof.
  intros Hlong Hstep.
  destruct (chunk_text_returns t cs ov Hstep) as [chunks Hrun].
  exists chunks. split; [done|].
  apply chunk_text_windows in Hrun as (n & -> & Hn & Hbelow); [|done].
  rewrite length_fmap, length_seq.
  apply Z.div_unique with (r := py_len t + (cs - ov) - 1 - (cs - ov) * Z.of_nat n);
    [|lia].
  left. destruct n as [|m]; [pose proof (py_len_nonneg t); lia|].
  specialize (Hbelow m). lia.
Qed.

Lemma chunk_text_count_witness :
  ∃ chunks,
    chunk_text 2501 scenario_text 1000 200 = Some chunks ∧
    Z.of_nat (length chunks) = (py_len scenario_text + (1000 - 200) - 1) / (1000 - 200).
Proof.
  apply (chunk_text_count scenario_text 1000 200); by vm_compute.
Defined.

(** X4. With [0 ≤ chunk_size] and [overlap < chunk_size], the [i]-th
    chunk has [min(chunk_size, len(text) - i*stride)] characters: it is
    full unless it reaches the end of the text, and it is never empty
    when [chunk_size] is positive. *)
Theorem chunk_text_chunk_length (fuel : nat) (t : text) (cs ov : Z)
    (chunks : list text) (i : nat) (c : text) :
  cs < py_len t → 0 ≤ cs → ov < cs →
  chunk_text fuel t cs ov = Some chunks →
  chunks !! i = Some c →
  py_len c = Z.min cs (py_len t - Z.of_nat i * (cs - ov)) ∧
  (0 < cs → c ≠ []).
Proof.
  intros Hlong Hcs Hstep Hrun Hc.
  apply chunk_text_windows in Hrun as (n & -> & _ & Hbelow); [|done].
  apply chunks_lookup in Hc as [Hi ->]. specialize (Hbelow i Hi).
  assert (0 ≤ Z.of_nat i * (cs - ov)) by (apply Z.mul_nonneg_nonneg; lia).
  assert (Hlen : py_len (nth_window t cs ov 0 i)
                 = Z.min cs (py_len t - Z.of_nat i * (cs - ov))).
  { unfold nth_window. rewrite py_slice_window by lia.
    unfold py_len in *. rewrite window_length. lia. }
  split; [done|]. intros Hpos Hnil. rewrite Hnil in Hlen.
  unfold py_len in Hlen at 1. simpl in Hlen. lia.
Qed.

Lemma chunk_text_chunk_length_witness :
  py_len (list_ascii_of_string "gh") =
    Z.min 4 (py_len (list_ascii_of_string "abcdefgh") - Z.of_nat 3 * (4 - 2)) ∧
  (0 < 4 → list_ascii_of_string "gh" ≠ []).
Proof.
  apply (chunk_text_chunk_length 9 (list_ascii_of_string "abcdefgh") 4 2
           (list_ascii_of_string <$> ["abcd"; "cdef"; "efgh"; "gh"]));
    by vm_compute.
Defined.

(** X5. With [overlap = 0] the chunks are a partition of the text: their
    concatenation is the text. *)
Theorem chunk_text_partition (t : text) (cs : Z) :
  cs < py_len t → 0 < cs →
  ∃ chunks,
    chunk_text (S (length t)) t cs 0 = Some chunks ∧ concat chunks = t.
Proof.
  intros Hlong Hcs.
  destruct (chunk_text_returns t cs 0 Hcs) as [chunks Hrun].
  exists chunks. split; [done|].
  apply chunk_text_windows in Hrun as (n & -> & Hn & _); [|done].
  destruct n as [|m]; [pose proof (py_len_nonneg t); lia|].
  change (seq 0 (S m)) with (0%nat :: seq 1 m). rewrite fmap_cons.
  rewrite (list_fmap_ext _
             (λ i, drop 0 (window t (i * Z.to_nat cs) (Z.to_nat cs + 0))));
    [|intros _ i _; rewrite nth_window_window by lia;
      by rewrite Z.sub_0_r].
  rewrite nth_window_window by lia. rewrite Z.sub_0_r.
  change (Z.to_nat 0) with 0%nat. change (0 * Z.to_nat cs)%nat with 0%nat.
  cbn [concat]. rewrite (residues_windows t (Z.to_nat cs) 0 m). apply take_ge.
  unfold py_len in Hn. lia.
Qed.

Lemma chunk_text_partition_witness :
  ∃ chunks,
    chunk_text 9 (list_ascii_of_string "abcdefgh") 3 0 = Some chunks ∧
    concat chunks = list_ascii_of_string "abcdefgh".
Proof.
  apply (chunk_text_partition (list_ascii_of_string "abcdefgh") 3);
    by vm_compute.
Defined.

(** X6. [chunk_text] returns the empty list in one case only: the text is
    empty and [chunk_size] is negative, so that the first branch is not
    taken and the loop is not entered. *)
Theorem chunk_text_empty_result (fuel : nat) (t : text) (cs ov : Z) :
  chunk_text fuel t cs ov = Some [] ↔ t = [] ∧ cs < 0 ∧ fuel ≠ 0%nat.
Proof.
  unfold chunk_text. split.
  - destruct (Z.leb_spec (py_len t) cs) as [|Hlong]; [done|].
    destruct fuel as [|fuel]; [done|]. simpl.
    destruct (Z.ltb_spec 0 (py_len t)) as [Hne|Hnil].
    + destruct (chunk_loop fuel t cs ov _) as [[final out]|] eqn:Hrun; [|done].
      destruct (loop_body t cs ov (0, [])) as [start acc] eqn:Hbody.
      apply chunk_loop_windows in Hrun as (n & -> & _).
      injection Hbody as _ <-. simpl. discriminate.
    + intros _. split_and!; [|lia|done].
      destruct t; [done|]. unfold py_len in Hnil. simpl in Hnil. lia.
  - intros (-> & Hcs & Hfuel). change (py_len []) with 0.
    destruct (Z.leb_spec 0 cs); [lia|]. by destruct fuel.
Qed.

Lemma chunk_text_empty_result_witness :
  chunk_text 1 [] (-1) 0 = Some [].
Proof.
  apply chunk_text_empty_result. split_and!; [reflexivity|lia|discriminate].
Defined.

(** * The chunk ids *)

Section ChunkIds.

Local Open Scope string_scope.

Lemma digits_no_underscore d :
  ¬ In underscore (list_ascii_of_string (NilEmpty.string_of_uint d)).
Proof.
  induction d; simpl; [tauto|..]; intros [H|H]; try discriminate H; by auto.
Qed.

Lemma str_of_nat_no_underscore i :
  ¬ In underscore (list_ascii_of_string (str_of_nat i)).
Proof.
  unfold str_of_nat, NilZero.string_of_uint.
  destruct (Nat.to_uint i) eqn:Hd; rewrite <- ?Hd;
    try apply digits_no_underscore.
  simpl. intros [H|H]; [discriminate H|done].
Qed.

Lemma to_uint_not_nil n : Nat.to_uint n ≠ Decimal.Nil.
Proof.
  intros H. assert (n = 0%nat) as ->.
  { rewrite <- (DecimalNat.Unsigned.of_to n), H. reflexivity. }
  discriminate H.
Qed.

Lemma str_of_nat_inj i j : str_of_nat i = str_of_nat j → i = j.
Proof.
  unfold str_of_nat. intros H.
  apply (f_equal NilZero.uint_of_string) in H.
  rewrite !NilZero.usu in H by apply to_uint_not_nil.
  injection H as H. by apply DecimalNat.Unsigned.to_uint_inj.
Qed.

Lemma underscore_in_middle a s :
  In underscore (list_ascii_of_string (a ++ String underscore s)).
Proof. induction a as [|c a IH]; simpl; auto. Qed.

(** A string is split in one way only at its last underscore. *)
Lemma split_at_last_underscore a b s s' :
  ¬ In underscore (list_ascii_of_string s) →
  ¬ In underscore (list_ascii_of_string s') →
  a ++ String underscore s = b ++ String underscore s' →
  a = b ∧ s = s'.
Proof.
  intros Hs Hs'. revert b. induction a as [|c a IH]; intros [|c' b] H;
    simpl in H.
  - by injection H as ->.
  - injection H as <- ->. destruct Hs. apply underscore_in_middle.
  - injection H as -> <-. destruct Hs'. apply underscore_in_middle.
  - injection H as -> H. apply IH in H as [-> ->]. done.
Qed.

Lemma chunk_id_eq file_name file_name' i j :
  chunk_id file_name i = chunk_id file_name' j →
  file_name = file_name' ∧ i = j.
Proof.
  unfold chunk_id. intros H.
  apply split_at_last_underscore in H as [-> H];
    try apply str_of_nat_no_underscore.
  split; [done|]. by apply str_of_nat_inj.
Qed.

End ChunkIds.

(** X7. A chunk id determines its file name and its index: the ids of two
    files, or of two chunks of a file, never collide. *)
Theorem chunk_id_inj (file_name file_name' : string) (i j : nat) :
  chunk_id file_name i = chunk_id file_name' j ↔
  file_name = file_name' ∧ i = j.
Proof.
  split; [apply chunk_id_eq|by intros [-> ->]].
Qed.

(** * Further properties of [process_document] *)

Section Indexing.

Context {vector distance : Type}.
Implicit Types (env : Env vector distance) (st : Processor vector).

Ltac run :=
  unfold mbind, M_bind, bind, mret, M_ret, ret, call, raise, modify,
    get_state in *; simpl in *.

Lemma clock_ticks n st : clock (Nat.iter n tick st) = (clock st + n)%nat.
Proof. induction n as [|n IH]; simpl; [lia|]. rewrite IH. lia. Qed.

Lemma document_metadata_ticks n st :
  document_metadata (Nat.iter n tick st) = document_metadata st.
Proof. induction n as [|n IH]; [done|]. simpl. exact IH. Qed.

Lemma metadata_file_ticks n st :
  metadata_file (Nat.iter n tick st) = metadata_file st.
Proof. induction n as [|n IH]; [done|]. simpl. exact IH. Qed.

Lemma encode_calls_ticks n st :
  encode_calls (Nat.iter n tick st) = encode_calls st.
Proof. induction n as [|n IH]; [done|]. simpl. exact IH. Qed.

(** The loop over the chunks, in closed form. *)
Lemma chunk_records_metas file_name file_ext total i chunks st :
  chunk_records file_name file_ext total i chunks st =
    (inr (chunk_id file_name <$> seq i (length chunks),
          (λ k, {| chunk_file_name := file_name; chunk_index := i + k;
                   chunk_total_chunks := total; chunk_file_type := file_ext;
                   chunk_processed_date := clock st + k |})
            <$> seq 0 (length chunks)),
     Nat.iter (length chunks) tick st).
Proof.
  revert i st. induction chunks as [|c chunks IH]; intros i st; [done|].
  simpl. run. rewrite IH. simpl. f_equal; [|apply Nat.iter_swap].
  do 2 f_equal. rewrite !Nat.add_0_r. f_equal.
  change (list_fmap nat ChunkMeta) with (@fmap list _ nat ChunkMeta).
  rewrite <- fmap_S_seq, <- list_fmap_compose. apply list_fmap_ext.
  intros _ k _. simpl. f_equal; lia.
Qed.

(** The runs of [index_document], by the collaborator that fails. *)
Lemma index_document_cases env path file_name file_hash file_ext t st :
  let chunks := chunk_text_default t in
  let n := length chunks in
  let st1 := Nat.iter n tick (count_encode st) in
  index_document env path file_name file_hash file_ext t st =
  match encode env chunks with
  | inl e => (inl e, count_encode st)
  | inr embeddings =>
      match collection_add env (collection st) embeddings chunks
              (chunk_metas file_name file_ext (clock st) n)
              (chunk_id file_name <$> seq 0 n) with
      | inl e => (inl e, st1)
      | inr c =>
          match getsize env path with
          | inl e => (inl e, tick (set_collection c st1))
          | inr size =>
              let st2 :=
                set_document_metadata
                  (insert file_name
                     (doc_record file_hash file_ext (clock st + n) n size))
                  (tick (set_collection c st1)) in
              if disk_writable env
              then (inr true,
                    set_metadata_file (Some (document_metadata st2)) st2)
              else (inl OSError,
                    set_metadata_file
                      (failed_write_leaves env (metadata_file st2)
                         (document_metadata st2)) st2)
          end
      end
  end.
Proof.
  intros chunks n st1. subst st1 n.
  unfold index_document, encode_texts, now, save_metadata.
  fold chunks. generalize chunks. clear chunks. intros chunks. run.
  destruct (encode env chunks) as [e|embeddings]; [done|].
  simpl. rewrite chunk_records_metas. simpl.
  rewrite collection_ticks. simpl. unfold chunk_metas.
  destruct (collection_add _ _ _ _ _ _) as [e|c]; [done|]. simpl.
  destruct (getsize env path) as [e|size]; [done|]. simpl.
  rewrite clock_ticks. simpl.
  by destruct (disk_writable env).
Qed.

(** The runs of [process_document], by the branch taken. *)
Lemma process_document_cases env path st :
  process_document env path st =
  match read_bytes env path with
  | inl _ => (false, st)
  | inr bytes =>
      let file_hash := md5_hexdigest env bytes in
      let file_ext := lower (splitext_ext (basename path)) in
      if up_to_date st (basename path) file_hash then (true, st)
      else match extract_text env file_ext path with
           | None => (false, st)
           | Some t =>
               if is_empty (strip t) then (false, st)
               else try_except
                      (index_document env path (basename path) file_hash
                         file_ext t) false st
           end
  end.
Proof.
  unfold process_document, try_except, process_document_body, get_file_hash.
  run. destruct (read_bytes env path) as [e|bytes]; [done|]. simpl.
  destruct (up_to_date st _ _); [done|].
  destruct (extract_text env _ path) as [t|]; [|done].
  by destruct (is_empty (strip t)).
Qed.

(** *** [collection.add] *)

Lemma add_records_ids ids (embeddings : list vector) docs metas records :
  add_records ids embeddings docs metas = Some records → records.*1 = ids.
Proof.
  revert embeddings docs metas records.
  induction ids as [|id ids IH]; intros [|e es] [|d ds] [|m ms] records;
    simpl; try done.
  - by intros [= <-].
  - destruct (add_records ids es ds ms) as [rest|] eqn:Hrest; [|done].
    simpl. intros [= <-]. simpl. f_equal. by eapply IH.
Qed.

Lemma add_records_lookup ids (embeddings : list vector) docs metas records
    i id e d m :
  add_records ids embeddings docs metas = Some records →
  ids !! i = Some id → embeddings !! i = Some e → docs !! i = Some d →
  metas !! i = Some m →
  records !! i = Some (id, {| entry_embedding := e; entry_document := d;
                              entry_metadata := m |}).
Proof.
  revert embeddings docs metas records i.
  induction ids as [|id0 ids IH]; intros [|e0 es] [|d0 ds] [|m0 ms] records i;
    simpl; try done.
  destruct (add_records ids es ds ms) as [rest|] eqn:Hrest; [|done].
  simpl. intros [= <-]. destruct i as [|i]; simpl.
  - by intros [= ->] [= ->] [= ->] [= ->].
  - by apply IH.
Qed.

Lemma add_records_lengths ids (embeddings : list vector) docs metas records :
  add_records ids embeddings docs metas = Some records →
  length embeddings = length ids ∧ length docs = length ids ∧
  length metas = length ids.
Proof.
  revert embeddings docs metas records.
  induction ids as [|id ids IH]; intros [|e es] [|d ds] [|m ms] records;
    simpl; try done.
  destruct (add_records ids es ds ms) as [rest|] eqn:Hrest; [|done].
  intros _. destruct (IH _ _ _ _ Hrest) as (-> & -> & ->). done.
Qed.

(** A successful [add], as a union of maps. *)
Lemma collection_add_inv env (c c' : gmap string (Entry vector))
    embeddings docs metas ids :
  collection_add env c embeddings docs metas ids = inr c' →
  ∃ records,
    add_records ids embeddings docs metas = Some records ∧ NoDup ids ∧
    (c' = c ∪ list_to_map records ∧ on_existing env = KeepExisting ∨
     c' = list_to_map records ∪ c ∧ on_existing env = ReplaceExisting ∨
     c' = list_to_map records ∪ c ∧ ∀ id, id ∈ ids → c !! id = None).
Proof.
  unfold collection_add. intros Hadd.
  destruct (store_online env); [|done]. simpl in Hadd.
  destruct (add_records ids embeddings docs metas) as [records|]; [|done].
  destruct (bool_decide (NoDup ids)) eqn:Hnodup; [|done]. simpl in Hadd.
  apply bool_decide_eq_true in Hnodup.
  exists records. split_and!; [done|done|].
  destruct (on_existing env).
  - injection Hadd as <-. by left.
  - injection Hadd as <-. right. by left.
  - destruct (existsb _ ids) eqn:Hexists; [done|]. injection Hadd as <-.
    right. right. split; [done|]. intros id Hid.
    destruct (c !! id) as [x|] eqn:Hc; [|done].
    assert (existsb (λ id, bool_decide (is_Some (c !! id))) ids = true);
      [|congruence].
    apply existsb_exists. exists id. split; [by apply list_elem_of_In|].
    apply bool_decide_eq_true. by rewrite Hc.
Qed.

(** [add] leaves the records of the other ids as they are. *)
Lemma collection_add_other env (c c' : gmap string (Entry vector))
    embeddings docs metas ids id :
  collection_add env c embeddings docs metas ids = inr c' →
  id ∉ ids → c' !! id = c !! id.
Proof.
  intros Hadd Hid.
  apply collection_add_inv in Hadd as (records & Hrec & _ & Hc').
  assert ((list_to_map records : gmap string (Entry vector)) !! id = None)
    as Hnone.
  { apply not_elem_of_list_to_map_1. by rewrite (add_records_ids _ _ _ _ _ Hrec). }
  destruct Hc' as [[-> _]|[[-> _]|[-> _]]].
  - by apply lookup_union_l.
  - by apply lookup_union_r.
  - by apply lookup_union_r.
Qed.

(** After [add], every id of the call is stored. *)
Lemma collection_add_stored env (c c' : gmap string (Entry vector))
    embeddings docs metas ids id :
  collection_add env c embeddings docs metas ids = inr c' →
  id ∈ ids → is_Some (c' !! id).
Proof.
  intros Hadd Hid.
  apply collection_add_inv in Hadd as (records & Hrec & _ & Hc').
  assert (is_Some ((list_to_map records : gmap string (Entry vector)) !! id))
    as Hsome.
  { destruct (list_to_map records !! id) eqn:Hl; [by eexists|].
    apply not_elem_of_list_to_map_2 in Hl.
    by rewrite (add_records_ids _ _ _ _ _ Hrec) in Hl. }
  destruct Hc' as [[-> _]|[[-> _]|[-> _]]];
    apply lookup_union_is_Some; auto.
Qed.

(** The record of a new id, or of any id when [add] replaces. *)
Lemma collection_add_lookup env (c c' : gmap string (Entry vector))
    embeddings docs metas ids i id e d m :
  collection_add env c embeddings docs metas ids = inr c' →
  ids !! i = Some id → embeddings !! i = Some e → docs !! i = Some d →
  metas !! i = Some m →
  c !! id = None ∨ on_existing env = ReplaceExisting →
  c' !! id = Some {| entry_embedding := e; entry_document := d;
                     entry_metadata := m |}.
Proof.
  intros Hadd Hid He Hd Hm Hnew.
  apply collection_add_inv in Hadd as (records & Hrec & Hnodup & Hc').
  assert ((list_to_map records : gmap string (Entry vector)) !! id
          = Some {| entry_embedding := e; entry_document := d;
                    entry_metadata := m |}) as Hrecord.
  { apply elem_of_list_to_map_1.
    - by rewrite (add_records_ids _ _ _ _ _ Hrec).
    - eapply list_elem_of_lookup_2. by eapply add_records_lookup. }
  destruct Hc' as [[-> Hpol]|[[-> _]|[-> _]]].
  - destruct Hnew as [Hnone|Hrep]; [|congruence].
    by rewrite lookup_union_r.
  - by apply lookup_union_Some_l.
  - by apply lookup_union_Some_l.
Qed.

(** A store that keeps what it holds does not change a stored record. *)
Lemma collection_add_kept env (c c' : gmap string (Entry vector))
    embeddings docs metas ids id x :
  collection_add env c embeddings docs metas ids = inr c' →
  on_existing env = KeepExisting → c !! id = Some x → c' !! id = Some x.
Proof.
  intros Hadd Hpol Hx.
  apply collection_add_inv in Hadd as (records & Hrec & _ & Hc').
  destruct Hc' as [[-> _]|[[_ ?]|[-> Hfresh]]]; [|congruence|].
  - by apply lookup_union_Some_l.
  - destruct (decide (id ∈ ids)) as [Hin|Hout].
    + by rewrite (Hfresh id Hin) in Hx.
    + rewrite lookup_union_r; [done|].
      apply not_elem_of_list_to_map_1.
      by rewrite (add_records_ids _ _ _ _ _ Hrec).
Qed.

(** What a successful run of [index_document] leaves. *)
Lemma index_document_success env path file_name file_hash file_ext t st st' :
  index_document env path file_name file_hash file_ext t st = (inr true, st') →
  let chunks := chunk_text_default t in
  let n := length chunks in
  ∃ embeddings c size,
    encode env chunks = inr embeddings ∧
    collection_add env (collection st) embeddings chunks
      (chunk_metas file_name file_ext (clock st) n)
      (chunk_id file_name <$> seq 0 n) = inr c ∧
    getsize env path = inr size ∧
    disk_writable env = true ∧
    st' = {| document_metadata :=
               <[file_name := doc_record file_hash file_ext (clock st + n) n size]>
                 (document_metadata st);
             collection := c;
             metadata_file :=
               Some (<[file_name := doc_record file_hash file_ext (clock st + n) n size]>
                       (document_metadata st));
             clock := S (clock st + n);
             encode_calls := S (encode_calls st) |}.
Proof.
  intros Hrun chunks n. rewrite index_document_cases in Hrun.
  fold chunks n in Hrun.
  destruct (encode env chunks) as [e|embeddings]; [done|].
  destruct (collection_add _ _ _ _ _ _) as [e|c] eqn:Hadd; [done|].
  destruct (getsize env path) as [e|size]; [done|].
  destruct (disk_writable env); [|done].
  exists embeddings, c, size. split_and!; try done.
  injection Hrun as <-. unfold set_metadata_file, set_document_metadata.
  simpl. rewrite document_metadata_ticks, clock_ticks, encode_calls_ticks.
  done.
Qed.

(** A call that returns [True] either found the file up to date or ran
    [index_document] to its end. *)
Lemma process_document_true env path st st' :
  process_document env path st = (true, st') →
  ∃ bytes,
    read_bytes env path = inr bytes ∧
    let file_hash := md5_hexdigest env bytes in
    let file_ext := lower (splitext_ext (basename path)) in
    (up_to_date st (basename path) file_hash = true ∧ st' = st ∨
     up_to_date st (basename path) file_hash = false ∧
     ∃ t, extract_text env file_ext path = Some t ∧
          is_empty (strip t) = false ∧
          index_document env path (basename path) file_hash file_ext t st
          = (inr true, st')).
Proof.
  rewrite process_document_cases.
  destruct (read_bytes env path) as [e|bytes]; [done|]. simpl.
  intros Hrun. exists bytes. split; [done|].
  destruct (up_to_date st _ _); [left; by injection Hrun as <-|]. right.
  split; [done|].
  destruct (extract_text env _ path) as [t|]; [|done].
  destruct (is_empty (strip t)) eqn:Hblank; [done|].
  exists t. split_and!; [done..|].
  unfold try_except in Hrun.
  destruct (index_document _ _ _ _ _ _ _) as [[e|b] st2]; [done|].
  by injection Hrun as -> ->.
Qed.

Lemma up_to_date_insert file_name file_hash file_ext date n size
    (md : gmap string DocMeta) (c : gmap string (Entry vector)) f k calls :
  up_to_date
    {| document_metadata :=
         <[file_name := doc_record file_hash file_ext date n size]> md;
       collection := c; metadata_file := f; clock := k;
       encode_calls := calls |} file_name file_hash = true.
Proof.
  unfold up_to_date. simpl. rewrite lookup_insert_eq. simpl.
  apply String.eqb_refl.
Qed.

(** The collection after any call, with the ids of the call to [add]. *)
Lemma process_document_add env path st :
  collection (process_document env path st).2 = collection st ∨
  ∃ embeddings docs metas n,
    collection_add env (collection st) embeddings docs metas
      (chunk_id (basename path) <$> seq 0 n)
    = inr (collection (process_document env path st).2).
Proof.
  rewrite process_document_cases.
  destruct (read_bytes env path) as [e|bytes]; [by left|]. simpl.
  destruct (up_to_date st _ _); [by left|].
  destruct (extract_text env _ path) as [t|]; [|by left].
  destruct (is_empty (strip t)); [by left|].
  unfold try_except. rewrite index_document_cases.
  destruct (encode env _) as [e|embeddings]; [by left|].
  destruct (collection_add _ _ _ _ _ _) as [e|c] eqn:Hadd.
  { left. simpl. by rewrite collection_ticks. }
  right. exists embeddings, (chunk_text_default t). do 2 eexists.
  rewrite Hadd. f_equal.
  destruct (getsize env path) as [e|size]; [done|].
  by destruct (disk_writable env).
Qed.

(** The metadata after any call: unchanged, or one record written. *)
Lemma process_document_metadata env path st :
  document_metadata (process_document env path st).2 = document_metadata st ∨
  ∃ record,
    document_metadata (process_document env path st).2
    = <[basename path := record]> (document_metadata st).
Proof.
  rewrite process_document_cases.
  destruct (read_bytes env path) as [e|bytes]; [by left|]. simpl.
  destruct (up_to_date st _ _); [by left|].
  destruct (extract_text env _ path) as [t|]; [|by left].
  destruct (is_empty (strip t)); [by left|].
  unfold try_except. rewrite index_document_cases.
  destruct (encode env _) as [e|embeddings]; [by left|].
  destruct (collection_add _ _ _ _ _ _) as [e|c].
  { left. simpl. by rewrite document_metadata_ticks. }
  destruct (getsize env path) as [e|size].
  { left. simpl. by rewrite document_metadata_ticks. }
  right. eexists.
  destruct (disk_writable env); simpl; by rewrite document_metadata_ticks.
Qed.

End Indexing.

(** X8. A call that returned [True] can be repeated: with the file
    unchanged, the next call returns [True] and leaves the processor as
    it is. *)
Theorem process_document_idempotent {vector distance : Type}
    (env : Env vector distance) (st st' : Processor vector) (path : string) :
  process_document env path st = (true, st') →
  process_document env path st' = (true, st').
Proof.
  intros Hrun.
  apply process_document_true in Hrun as (bytes & Hread & Hcases).
  rewrite process_document_cases, Hread. simpl in *.
  destruct Hcases as [[Hfresh ->]|(_ & t & _ & _ & Hindex)].
  - by rewrite Hfresh.
  - apply index_document_success in Hindex
      as (embeddings & c & size & _ & _ & _ & _ & ->).
    by rewrite up_to_date_insert.
Qed.

Lemma process_document_idempotent_witness :
  process_document (shrink_before KeepExisting) "documents/a.txt"
    (shrink_first_run KeepExisting).2
  = (true, (shrink_first_run KeepExisting).2).
Proof.
  apply process_document_idempotent with (st := fresh_processor).
  by vm_compute.
Defined.

(** X9. When a file that is not up to date is processed with success,
    its record holds the hash of the file, the number of its chunks, its
    extension and its size; the metadata file holds the new metadata;
    [encode] was called once and the clock was read once per chunk and
    once for the record. *)
Theorem process_document_records_file {vector distance : Type}
    (env : Env vector distance) (st st' : Processor vector) (path : string)
    (bytes : list Byte.byte) :
  read_bytes env path = inr bytes →
  up_to_date st (basename path) (md5_hexdigest env bytes) = false →
  process_document env path st = (true, st') →
  ∃ t size,
    extract_text env (lower (splitext_ext (basename path))) path = Some t ∧
    getsize env path = inr size ∧
    let n := length (chunk_text_default t) in
    document_metadata st' =
      <[basename path :=
          doc_record (md5_hexdigest env bytes)
            (lower (splitext_ext (basename path))) (clock st + n) n size]>
        (document_metadata st) ∧
    metadata_file st' = Some (document_metadata st') ∧
    encode_calls st' = S (encode_calls st) ∧
    clock st' = S (clock st + n).
Proof.
  intros Hread Hstale Hrun.
  apply process_document_true in Hrun as (bytes' & Hread' & Hcases).
  rewrite Hread in Hread'. injection Hread' as <-. simpl in Hcases.
  destruct Hcases as [[Hfresh _]|(_ & t & Hext & _ & Hindex)]; [congruence|].
  apply index_document_success in Hindex
    as (embeddings & c & size & _ & _ & Hsize & _ & ->).
  by exists t, size.
Qed.

Lemma process_document_records_file_witness :
  ∃ t size,
    extract_text (shrink_before KeepExisting)
      (lower (splitext_ext (basename "documents/a.txt"))) "documents/a.txt"
      = Some t ∧
    getsize (shrink_before KeepExisting) "documents/a.txt" = inr size ∧
    let n := length (chunk_text_default t) in
    document_metadata (shrink_first_run KeepExisting).2 =
      <[basename "documents/a.txt" :=
          doc_record
            (md5_hexdigest (shrink_before KeepExisting)
               (byte_of_ascii <$> repeat "a"%char 1001))
            (lower (splitext_ext (basename "documents/a.txt")))
            (clock fresh_processor + n) n size]>
        (document_metadata fresh_processor) ∧
    metadata_file (shrink_first_run KeepExisting).2
      = Some (document_metadata (shrink_first_run KeepExisting).2) ∧
    encode_calls (shrink_first_run KeepExisting).2
      = S (encode_calls fresh_processor) ∧
    clock (shrink_first_run KeepExisting).2 = S (clock fresh_processor + n).
Proof.
  apply (process_document_records_file (shrink_before KeepExisting)
           fresh_processor _ "documents/a.txt"); by vm_compute.
Defined.

(** X10. After a file was processed with success, every chunk id
    [{file_name}_{i}] of its [n] chunks is stored; a record that [add]
    wrote (its id was not stored before, or the store replaces) holds the
    [i]-th chunk with the file name, the index [i] and the count [n]. *)
Theorem process_document_stores_chunks {vector distance : Type}
    (env : Env vector distance) (st st' : Processor vector) (path : string)
    (bytes : list Byte.byte) (t : text) :
  read_bytes env path = inr bytes →
  up_to_date st (basename path) (md5_hexdigest env bytes) = false →
  extract_text env (lower (splitext_ext (basename path))) path = Some t →
  process_document env path st = (true, st') →
  ∀ (i : nat) (chunk : text),
    chunk_text_default t !! i = Some chunk →
    is_Some (collection st' !! chunk_id (basename path) i) ∧
    (collection st !! chunk_id (basename path) i = None ∨
     on_existing env = ReplaceExisting →
     ∃ entry,
       collection st' !! chunk_id (basename path) i = Some entry ∧
       entry_document entry = chunk ∧
       chunk_file_name (entry_metadata entry) = basename path ∧
       chunk_index (entry_metadata entry) = i ∧
       chunk_total_chunks (entry_metadata entry)
         = length (chunk_text_default t)).
Proof.
  intros Hread Hstale Hext Hrun i chunk Hchunk.
  apply process_document_true in Hrun as (bytes' & Hread' & Hcases).
  rewrite Hread in Hread'. injection Hread' as <-. simpl in Hcases.
  destruct Hcases as [[Hfresh _]|(_ & t' & Hext' & _ & Hindex)]; [congruence|].
  rewrite Hext in Hext'. injection Hext' as <-.
  apply index_document_success in Hindex
    as (embeddings & c & size & _ & Hadd & _ & _ & ->). simpl.
  assert (Hi : (i < length (chunk_text_default t))%nat)
    by (by eapply lookup_lt_Some).
  assert (Hid : (chunk_id (basename path)
                   <$> seq 0 (length (chunk_text_default t))) !! i
                = Some (chunk_id (basename path) i)).
  { by rewrite list_lookup_fmap, lookup_seq_lt. }
  split.
  - eapply collection_add_stored; [done|].
    by eapply list_elem_of_lookup_2.
  - intros Hnew.
    destruct (collection_add_inv _ _ _ _ _ _ _ Hadd) as (records & Hrec & _).
    apply add_records_lengths in Hrec as (Hlen & _).
    rewrite length_fmap, length_seq in Hlen.
    destruct (lookup_lt_is_Some_2 embeddings i) as [e He]; [lia|].
    eexists. split.
    + eapply collection_add_lookup; [done..| |done].
      unfold chunk_metas. by rewrite list_lookup_fmap, lookup_seq_lt.
    + done.
Qed.

Lemma process_document_stores_chunks_witness :
  is_Some ((collection (shrink_first_run ReplaceExisting).2)
             !! chunk_id (basename "documents/a.txt") 1) ∧
  (collection fresh_processor !! chunk_id (basename "documents/a.txt") 1 = None ∨
   on_existing (shrink_before ReplaceExisting) = ReplaceExisting →
   ∃ entry,
     collection (shrink_first_run ReplaceExisting).2
       !! chunk_id (basename "documents/a.txt") 1 = Some entry ∧
     entry_document entry = repeat "a"%char 201 ∧
     chunk_file_name (entry_metadata entry) = basename "documents/a.txt" ∧
     chunk_index (entry_metadata entry) = 1%nat ∧
     chunk_total_chunks (entry_metadata entry)
       = length (chunk_text_default (repeat "a"%char 1001))).
Proof.
  apply (process_document_stores_chunks (shrink_before ReplaceExisting)
           fresh_processor _ "documents/a.txt"
           (byte_of_ascii <$> repeat "a"%char 1001)); by vm_compute.
Defined.

(** X11. With a store that keeps the record of an id it already holds,
    no call to [process_document] changes a stored record: the chunks of
    a changed file keep their old text under the ids that are used
    again. *)
Theorem process_document_keeps_records {vector distance : Type}
    (env : Env vector distance) (st : Processor vector) (path id : string)
    (entry : Entry vector) :
  on_existing env = KeepExisting →
  collection st !! id = Some entry →
  collection (process_document env path st).2 !! id = Some entry.
Proof.
  intros Hkeep Hentry.
  destruct (process_document_add env path st)
    as [->|(embeddings & docs & metas & n & Hadd)]; [done|].
  by eapply collection_add_kept.
Qed.

Lemma process_document_keeps_records_witness :
  entry_document <$>
    collection (shrink_second_run KeepExisting).2 !! "a.txt_0"
  = Some (repeat "a"%char 1000).
Proof.
  unfold shrink_second_run.
  erewrite (process_document_keeps_records (shrink_after KeepExisting));
    [|reflexivity|by vm_compute].
  reflexivity.
Defined.

(** X12. [process_document] writes no metadata record but the one of its
    file: the record of every other file name is as it was, whatever the
    call returns. *)
Theorem process_document_other_metadata {vector distance : Type}
    (env : Env vector distance) (st : Processor vector)
    (path other : string) :
  other ≠ basename path →
  document_metadata (process_document env path st).2 !! other
  = document_metadata st !! other.
Proof.
  intros Hother.
  destruct (process_document_metadata env path st) as [->|[record ->]];
    [done|].
  by apply lookup_insert_ne.
Qed.

Lemma process_document_other_metadata_witness :
  document_metadata
    (process_document batch_env "documents/paper.pdf"
       (process_document batch_env "documents/notes.txt" fresh_processor).2).2
    !! "notes.txt"
  = document_metadata
      (process_document batch_env "documents/notes.txt" fresh_processor).2
      !! "notes.txt".
Proof.
  apply process_document_other_metadata. by vm_compute.
Defined.

(** X13. [process_document] touches no record of the collection but the
    chunks of its file: the chunk of any other file name is as it was,
    whatever the call returns. *)
Theorem process_document_other_chunks {vector distance : Type}
    (env : Env vector distance) (st : Processor vector)
    (path other : string) (i : nat) :
  other ≠ basename path →
  collection (process_document env path st).2 !! chunk_id other i
  = collection st !! chunk_id other i.
Proof.
  intros Hother.
  destruct (process_document_add env path st)
    as [->|(embeddings & docs & metas & n & Hadd)]; [done|].
  eapply collection_add_other; [done|].
  intros Hin. apply list_elem_of_fmap in Hin as (j & Heq & _).
  apply chunk_id_eq in Heq as [? _]. done.
Qed.

Lemma process_document_other_chunks_witness :
  collection
    (process_document batch_env "documents/paper.pdf"
       (process_document batch_env "documents/notes.txt" fresh_processor).2).2
    !! chunk_id "notes.txt" 0
  = collection
      (process_document batch_env "documents/notes.txt" fresh_processor).2
      !! chunk_id "notes.txt" 0.
Proof.
  apply process_document_other_chunks. by vm_compute.
Defined.

(** X14. When [encode] raises, [process_document] returns [False]; the
    collection, the metadata, the metadata file and the clock are as
    they were, and [encode] was called once. *)
Theorem process_document_encode_failure {vector distance : Type}
    (env : Env vector distance) (st : Processor vector) (path : string)
    (bytes : list Byte.byte) (t : text) (e : exn) :
  read_bytes env path = inr bytes →
  up_to_date st (basename path) (md5_hexdigest env bytes) = false →
  extract_text env (lower (splitext_ext (basename path))) path = Some t →
  strip t ≠ [] →
  encode env (chunk_text_default t) = inl e →
  process_document env path st = (false, count_encode st).
Proof.
  intros Hread Hstale Hext Hblank Hencode.
  rewrite process_document_cases, Hread. simpl. rewrite Hstale, Hext.
  destruct (strip t) eqn:Hstrip; [done|]. simpl.
  unfold try_except. by rewrite index_document_cases, Hencode.
Qed.

Lemma process_document_encode_failure_witness :
  process_document (failing_encoder batch_env) "documents/notes.txt"
    fresh_processor
  = (false, count_encode fresh_processor).
Proof.
  eapply process_document_encode_failure; by vm_compute.
Defined.

(** X15. A failure is not always atomic.  When everything succeeds but
    the write of the metadata file, [process_document] returns [False]
    with the chunks added to the collection and the record written in
    memory, and the file is left as the failed write leaves it: as it
    was when [open] raised, truncated when the write stopped after
    [open].  The next call then finds the document up to date and
    returns [True] without writing the file. *)
Theorem process_document_save_failure {vector distance : Type}
    (env : Env vector distance) (st : Processor vector) (path : string)
    (bytes : list Byte.byte) (t : text) (embeddings : list vector)
    (c : gmap string (Entry vector)) (size : nat) :
  let file_name := basename path in
  let file_ext := lower (splitext_ext file_name) in
  let n := length (chunk_text_default t) in
  read_bytes env path = inr bytes →
  up_to_date st file_name (md5_hexdigest env bytes) = false →
  extract_text env file_ext path = Some t →
  strip t ≠ [] →
  encode env (chunk_text_default t) = inr embeddings →
  collection_add env (collection st) embeddings (chunk_text_default t)
    (chunk_metas file_name file_ext (clock st) n)
    (chunk_id file_name <$> seq 0 n) = inr c →
  getsize env path = inr size →
  disk_writable env = false →
  ∃ st',
    process_document env path st = (false, st') ∧
    collection st' = c ∧
    document_metadata st' =
      <[file_name :=
          doc_record (md5_hexdigest env bytes) file_ext (clock st + n) n size]>
        (document_metadata st) ∧
    metadata_file st' =
      failed_write_leaves env (metadata_file st) (document_metadata st') ∧
    process_document env path st' = (true, st').
Proof.
  intros file_name file_ext n Hread Hstale Hext Hblank Hencode Hadd Hsize Hdisk.
  subst file_name file_ext n.
  destruct (strip t) as [|a rest] eqn:Hstrip; [done|].
  eexists. split_and!.
  - rewrite process_document_cases, Hread. simpl.
    rewrite Hstale, Hext, Hstrip. simpl. unfold try_except.
    rewrite index_document_cases, Hencode, Hadd, Hsize, Hdisk.
    reflexivity.
  - done.
  - simpl. by rewrite document_metadata_ticks.
  - simpl. by rewrite metadata_file_ticks, document_metadata_ticks.
  - rewrite process_document_cases, Hread. simpl.
    unfold up_to_date. simpl. rewrite document_metadata_ticks, lookup_insert_eq.
    simpl. by rewrite String.eqb_refl.
Qed.

Lemma process_document_save_failure_witness :
  ∃ st',
    process_document (full_disk batch_env) "documents/paper.pdf" notes_indexed
      = (false, st') ∧
    collection st' = notes_and_paper ∧
    total_chunks <$> document_metadata st' !! "paper.pdf" = Some 1%nat ∧
    metadata_file notes_indexed = Some (document_metadata notes_indexed) ∧
    metadata_file st' = None ∧
    process_document (full_disk batch_env) "documents/paper.pdf" st'
      = (true, st').
Proof.
  assert (Hread : read_bytes (full_disk batch_env) "documents/paper.pdf"
                  = inr (byte_of_ascii <$> list_ascii_of_string "%PDFa paper"))
    by (vm_compute; reflexivity).
  assert (Hnotes : metadata_file notes_indexed
                   = Some (document_metadata notes_indexed))
    by (vm_compute; reflexivity).
  destruct (process_document_save_failure (full_disk batch_env) notes_indexed
              "documents/paper.pdf"
              (byte_of_ascii <$> list_ascii_of_string "%PDFa paper")
              (list_ascii_of_string "a paper") [7%nat] notes_and_paper 11
              Hread)
    as (st' & Hrun & Hcollection & Hrecord & Hfile & Hagain).
  - vm_compute. reflexivity.
  - vm_compute. reflexivity.
  - vm_compute. discriminate.
  - vm_compute. reflexivity.
  - vm_compute. reflexivity.
  - vm_compute. reflexivity.
  - reflexivity.
  - exists st'. split_and!.
    + exact Hrun.
    + exact Hcollection.
    + rewrite Hrecord. vm_compute. reflexivity.
    + exact Hnotes.
    + exact Hfile.
    + exact Hagain.
Defined.

(** X16. When the reader of the file's type raises, the extractor
    returns the empty string and [process_document] returns [False],
    leaving the processor as it was. *)
Theorem process_document_reader_failure {vector distance : Type}
    (env : Env vector distance) (st : Processor vector) (path : string)
    (bytes : list Byte.byte) (e : exn) :
  let file_ext := lower (splitext_ext (basename path)) in
  read_bytes env path = inr bytes →
  up_to_date st (basename path) (md5_hexdigest env bytes) = false →
  file_ext = ".pdf" ∧ pdf_pages env path = inl e ∨
  file_ext = ".docx" ∧ docx_paragraphs env path = inl e ∨
  file_ext = ".txt" ∧ read_utf8 env path = inl e →
  process_document env path st = (false, st).
Proof.
  intros file_ext Hread Hstale Hreader. subst file_ext.
  rewrite process_document_cases, Hread. simpl. rewrite Hstale.
  unfold extract_text, extract_text_from_pdf, extract_text_from_docx,
    extract_text_from_txt.
  destruct Hreader as [[-> ->]|[[-> ->]|[-> ->]]]; done.
Qed.

Lemma process_document_reader_failure_witness :
  process_document batch_env "documents/broken.pdf" fresh_processor
  = (false, fresh_processor).
Proof.
  eapply (process_document_reader_failure batch_env fresh_processor
            "documents/broken.pdf" _ ValueError);
    [by vm_compute | by vm_compute | left; by vm_compute].
Defined.

(** X17. When the file cannot be read, [get_file_hash] raises and
    [process_document] returns [False], leaving the processor as it
    was. *)
Theorem process_document_unreadable {vector distance : Type}
    (env : Env vector distance) (st : Processor vector) (path : string)
    (e : exn) :
  read_bytes env path = inl e →
  process_document env path st = (false, st).
Proof. intros Hread. by rewrite process_document_cases, Hread. Qed.

Lemma process_document_unreadable_witness :
  process_document batch_env "documents/locked.txt" fresh_processor
  = (false, fresh_processor).
Proof.
  by apply (process_document_unreadable batch_env fresh_processor
              "documents/locked.txt" OSError).
Defined.

(** * Further properties of the batch and of the summary *)

Section Batch.

Context {vector distance : Type}.
Implicit Types (env : Env vector distance) (st : Processor vector).

(** What every call to [process_document] preserves, the loop over the
    directory preserves. *)
Lemma process_listing_invariant env (P : Processor vector → Prop) :
  (∀ path st, P st → P (process_document env path st).2) →
  ∀ names results st, P st → P (process_listing env names results st).2.
Proof.
  intros Hstep names. induction names as [|f names IH]; intros results st HP.
  - done.
  - simpl. destruct (isfile env _); [|by apply IH].
    specialize (Hstep (path_join (documents_dir env) f) st HP).
    destruct (process_document env _ st) as [ok st']. by apply IH.
Qed.

Lemma process_document_in_sync env path st :
  disk_writable env = true → metadata_in_sync st →
  metadata_in_sync (process_document env path st).2.
Proof.
  intros Hdisk Hsync. rewrite process_document_cases.
  destruct (read_bytes env path) as [e|bytes]; [done|]. simpl.
  destruct (up_to_date st _ _); [done|].
  destruct (extract_text env _ path) as [t|]; [|done].
  destruct (is_empty (strip t)); [done|].
  unfold try_except. rewrite index_document_cases, Hdisk.
  unfold metadata_in_sync, load_metadata in *.
  destruct (encode env _) as [e|embeddings]; [done|].
  destruct (collection_add _ _ _ _ _ _) as [e|c]; simpl.
  { by rewrite metadata_file_ticks, document_metadata_ticks. }
  destruct (getsize env path) as [e|size]; simpl; [|done].
  by rewrite metadata_file_ticks, document_metadata_ticks.
Qed.

Lemma process_document_keeps_metadata env path st name :
  is_Some (document_metadata st !! name) →
  is_Some (document_metadata (process_document env path st).2 !! name).
Proof.
  intros Hname.
  destruct (process_document_metadata env path st) as [->|[record ->]];
    [done|].
  rewrite lookup_insert. by destruct (decide (basename path = name)).
Qed.

Lemma summary_value env st s :
  get_document_summary env st = inr s →
  total_documents s = size (document_metadata st) ∧
  summary_documents s = document_metadata st ∧
  vector_db_size s = size (collection st).
Proof.
  unfold get_document_summary, collection_count, collection_get_ids.
  destruct (store_online env); [|done].
  destruct (Nat.ltb_spec 0 (size (collection st))) as [Hpos|Hzero];
    intros [= <-]; simpl; split_and!; try done.
  - by rewrite length_fmap, length_map_to_list.
  - lia.
Qed.

Lemma keys_size {A} (m m' : gmap string A) :
  (∀ k, is_Some (m !! k) → is_Some (m' !! k)) → (size m ≤ size m')%nat.
Proof.
  intros Hkeys. rewrite <- !(size_dom (D:=gset string)).
  apply subseteq_size. intros k. rewrite !elem_of_dom. apply Hkeys.
Qed.

(** The loop over an up-to-date directory. *)
Lemma process_listing_up_to_date env names results st :
  (∀ f, f ∈ names → isfile env (path_join (documents_dir env) f) = true →
     process_document env (path_join (documents_dir env) f) st = (true, st)) →
  (process_listing env names results st).2 = st ∧
  ∀ f, (process_listing env names results st).1 !! f =
       if bool_decide (f ∈ names ∧
                       isfile env (path_join (documents_dir env) f) = true)
       then Some true else results !! f.
Proof.
  revert results. induction names as [|g names IH]; intros results Hall.
  - split; [done|]. intros f. rewrite bool_decide_eq_false_2; [done|].
    intros [Hin _]. by apply elem_of_nil in Hin.
  - simpl. destruct (isfile env (path_join (documents_dir env) g)) eqn:Hg.
    + rewrite (Hall g) by (done || apply list_elem_of_here).
      destruct (IH (<[g:=true]> results)) as [-> Hres].
      { intros f Hf. apply Hall. by apply list_elem_of_further. }
      split; [done|]. intros f. rewrite Hres.
      destruct (decide (f = g)) as [->|Hne].
      * rewrite lookup_insert_eq.
        rewrite (bool_decide_eq_true_2 (g ∈ g :: names ∧ _));
          [|split; [apply list_elem_of_here|done]].
        by destruct (bool_decide _).
      * rewrite lookup_insert_ne by done.
        apply (f_equal (λ b : bool, if b then Some true else results !! f)).
        apply bool_decide_ext. rewrite elem_of_cons.
        split; [intros [? ?]; auto|intros [[?|?] ?]; [done|auto]].
    + destruct (IH results) as [-> Hres].
      { intros f Hf. apply Hall. by apply list_elem_of_further. }
      split; [done|]. intros f. rewrite Hres.
      apply (f_equal (λ b : bool, if b then Some true else results !! f)).
      apply bool_decide_ext. rewrite elem_of_cons.
      split; [intros [? ?]; auto|].
      intros [[->|Hin] Hfile]; [congruence|done].
Qed.

End Batch.

(** X18. With a metadata file that can be written, the file always holds
    the metadata that is in memory: what [__init__] establishes by
    loading the file is kept by every call to [process_document] and by
    [process_all_documents], whatever they return. *)
Theorem metadata_file_in_sync {vector distance : Type}
    (env : Env vector distance) (st : Processor vector) :
  disk_writable env = true → metadata_in_sync st →
  (∀ path, metadata_in_sync (process_document env path st).2) ∧
  metadata_in_sync (process_all_documents env st).2.
Proof.
  intros Hdisk Hsync. split.
  - intros path. by apply process_document_in_sync.
  - unfold process_all_documents. apply process_listing_invariant; [|done].
    intros path st0. by apply process_document_in_sync.
Qed.

Lemma metadata_file_in_sync_witness :
  load_metadata (process_all_documents batch_env fresh_processor).2
  = document_metadata (process_all_documents batch_env fresh_processor).2.
Proof.
  apply (metadata_file_in_sync batch_env fresh_processor); reflexivity.
Defined.

(** X19. The counts of [get_document_summary] never go down over a
    batch: [process_all_documents] removes neither a document record nor
    a record of the collection.  [vector_db_size] is the number of
    records of the collection. *)
Theorem summary_never_shrinks {vector distance : Type}
    (env : Env vector distance) (st : Processor vector) (s s' : Summary) :
  get_document_summary env st = inr s →
  get_document_summary env (process_all_documents env st).2 = inr s' →
  (total_documents s ≤ total_documents s')%nat ∧
  (vector_db_size s ≤ vector_db_size s')%nat ∧
  vector_db_size s' = size (collection (process_all_documents env st).2) ∧
  dom (summary_documents s) ⊆ dom (summary_documents s').
Proof.
  intros Hs Hs'.
  apply summary_value in Hs as (-> & -> & ->).
  apply summary_value in Hs' as (-> & -> & ->).
  assert (Hmeta : ∀ k, is_Some (document_metadata st !! k) →
            is_Some (document_metadata (process_all_documents env st).2 !! k)).
  { intros k. unfold process_all_documents.
    apply (process_listing_invariant env
             (λ st', is_Some (document_metadata st !! k) →
                     is_Some (document_metadata st' !! k))); [|done].
    intros path st0 H0 Hk. by apply process_document_keeps_metadata, H0. }
  assert (Hcoll : ∀ k, is_Some (collection st !! k) →
            is_Some (collection (process_all_documents env st).2 !! k)).
  { intros k. unfold process_all_documents.
    apply (process_listing_invariant env
             (λ st', is_Some (collection st !! k) →
                     is_Some (collection st' !! k))); [|done].
    intros path st0 H0 Hk. by apply process_document_never_deletes, H0. }
  split_and!.
  - by apply keys_size.
  - by apply keys_size.
  - done.
  - intros k. rewrite !elem_of_dom. apply Hmeta.
Qed.

Lemma summary_never_shrinks_witness :
  (0 ≤ 2)%nat ∧ (0 ≤ 2)%nat ∧
  2%nat = size (collection (process_all_documents batch_env fresh_processor).2) ∧
  dom (∅ : gmap string DocMeta) ⊆
    dom (document_metadata (process_all_documents batch_env fresh_processor).2).
Proof.
  apply (summary_never_shrinks batch_env fresh_processor
           {| total_documents := 0; summary_documents := ∅;
              vector_db_size := 0 |}
           {| total_documents := 2;
              summary_documents :=
                document_metadata
                  (process_all_documents batch_env fresh_processor).2;
              vector_db_size := 2 |}); by vm_compute.
Defined.

(** X20. A batch over a directory whose files are all up to date does
    nothing: every file is reported [True] and the processor is left as
    it was. *)
Theorem process_all_documents_up_to_date {vector distance : Type}
    (env : Env vector distance) (st : Processor vector) :
  (∀ filename, filename ∈ listed_files env →
     ∃ bytes record,
       read_bytes env (path_join (documents_dir env) filename) = inr bytes ∧
       document_metadata st
         !! basename (path_join (documents_dir env) filename) = Some record ∧
       hash record = md5_hexdigest env bytes) →
  (process_all_documents env st).2 = st ∧
  ∀ filename, filename ∈ listed_files env →
    (process_all_documents env st).1 !! filename = Some true.
Proof.
  intros Hall. unfold process_all_documents.
  destruct (process_listing_up_to_date env (listdir env) ∅ st) as [Hst Hres].
  - intros f Hf Hfile.
    destruct (Hall f) as (bytes & record & Hread & Hrecord & Hhash).
    { unfold listed_files. apply list_elem_of_In, filter_In.
      split; [by apply list_elem_of_In|done]. }
    rewrite process_document_cases, Hread. simpl. unfold up_to_date.
    by rewrite Hrecord, Hhash, String.eqb_refl.
  - split; [done|]. intros f Hf. rewrite Hres.
    rewrite bool_decide_eq_true_2; [done|].
    unfold listed_files in Hf. apply list_elem_of_In, filter_In in Hf as [? ?].
    split; [by apply list_elem_of_In|done].
Qed.

Lemma process_all_documents_up_to_date_witness :
  (process_all_documents (shrink_before KeepExisting)
     (shrink_first_run KeepExisting).2).2
  = (shrink_first_run KeepExisting).2.
Proof.
  apply (process_all_documents_up_to_date (shrink_before KeepExisting)).
  intros filename Hin.
  assert (filename = "a.txt") as ->.
  { vm_compute in Hin. by apply list_elem_of_singleton in Hin. }
  do 2 eexists. split_and!; by vm_compute.
Defined.

(** * Further properties of [search_documents] *)

Section Search.

Context {vector distance : Type}.
Implicit Types (env : Env vector distance) (st : Processor vector).
Implicit Types (results : QueryResult distance).

Ltac run :=
  unfold mbind, M_bind, bind, mret, M_ret, ret, call, raise, modify,
    get_state in *; simpl in *.

Lemma item_inr {A} (l : list A) i a : item l i = inr a ↔ l !! i = Some a.
Proof. unfold item. destruct (l !! i); split; congruence. Qed.

(** The formatting loop does not touch the processor, and when it
    returns, every hit holds the document of its index. *)
Lemma format_results_run results indices st :
  ∃ outcome,
    format_results results indices st = (outcome, st) ∧
    ∀ hits docs,
      outcome = inr hits →
      documents results !! 0%nat = Some docs →
      Some <$> (content <$> hits) = (docs !!.) <$> indices.
Proof.
  induction indices as [|i indices (tail & Htail & Hhits)].
  - eexists. split; [reflexivity|]. by intros hits docs [= <-] _.
  - simpl. run. unfold item.
    destruct (documents results !! 0%nat) as [docs|] eqn:Hdocs;
      [|by eexists]. simpl.
    destruct (docs !! i) as [doc|] eqn:Hdoc; [|by eexists]. simpl.
    destruct (metadatas results !! 0%nat) as [metas|]; [|by eexists]. simpl.
    destruct (metas !! i) as [meta|]; [|by eexists]. simpl.
    assert (Hcons : ∀ dist,
      ∃ outcome,
        (let (s, s') := format_results results indices st in
         match s with
         | inl e => (inl e, s')
         | inr a =>
             (inr ({| content := doc; metadata := meta;
                      hit_distance := dist |} :: a), s')
         end) = (outcome, st) ∧
        ∀ hits docs0,
          outcome = inr hits → Some docs = Some docs0 →
          Some <$> (content <$> hits) = docs0 !! i :: ((docs0 !!.) <$> indices)).
    { intros dist. rewrite Htail. destruct tail as [e|tl].
      - eexists. split; [done|]. by intros.
      - eexists. split; [done|]. intros hits docs0 [= <-] [= <-].
        simpl. rewrite Hdoc. f_equal. by apply Hhits. }
    destruct (distances results) as [ds|]; simpl; [|apply Hcons].
    destruct (ds !! 0%nat) as [row|]; [|by eexists]. simpl.
    destruct (row !! i) as [d|]; [|by eexists]. simpl. apply Hcons.
Qed.

Lemma lookups_seq {A} (l : list A) :
  (l !!.) <$> seq 0 (length l) = Some <$> l.
Proof.
  apply list_eq. intros i. rewrite !list_lookup_fmap.
  destruct (decide (i < length l)%nat) as [Hi|Hi].
  - rewrite lookup_seq_lt by done. simpl.
    destruct (lookup_lt_is_Some_2 l i Hi) as [x Hx]. by rewrite Hx.
  - rewrite lookup_seq_ge by lia. simpl.
    by rewrite lookup_ge_None_2 by lia.
Qed.

(** When the three lists of the result are as long as the list of
    documents, the loop returns one hit per document. *)
Lemma format_results_complete results docs metas row j k st :
  documents results !! 0%nat = Some docs →
  metadatas results !! 0%nat = Some metas →
  (distances results = None ∨
   ∃ ds, distances results = Some ds ∧ ds !! 0%nat = Some row) →
  (j + k ≤ length docs)%nat → (j + k ≤ length metas)%nat →
  (distances results ≠ None → j + k ≤ length row)%nat →
  ∃ hits,
    format_results results (seq j k) st = (inr hits, st) ∧
    content <$> hits = take k (drop j docs) ∧
    metadata <$> hits = take k (drop j metas) ∧
    hit_distance <$> hits =
      match distances results with
      | Some _ => Some <$> take k (drop j row)
      | None => replicate k None
      end.
Proof.
  intros Hdocs Hmetas Hdist. revert j.
  induction k as [|k IH]; intros j Hj Hm Hr.
  - exists []. split_and!; try done. by destruct (distances results).
  - destruct (IH (S j)) as (hits & Hrun & Hc & Hmt & Hd); [lia..| |].
    { intros Hne. specialize (Hr Hne). lia. }
    destruct (lookup_lt_is_Some_2 docs j) as [doc Hdoc]; [lia|].
    destruct (lookup_lt_is_Some_2 metas j) as [meta Hmeta]; [lia|].
    simpl. run. unfold item. rewrite Hdocs. simpl. rewrite Hdoc, Hmetas.
    simpl. rewrite Hmeta. simpl.
    rewrite (drop_S docs doc j Hdoc), (drop_S metas meta j Hmeta). simpl.
    destruct Hdist as [Hnone|(ds & Hds & Hrow)].
    + rewrite Hnone in *. simpl. rewrite Hrun. simpl.
      eexists. split_and!; [done|..]; simpl; by f_equal.
    + rewrite Hds in *. simpl. rewrite Hrow. simpl.
      destruct (lookup_lt_is_Some_2 row j) as [d Hdj]; [specialize (Hr ltac:(done)); lia|].
      rewrite Hdj. simpl. rewrite Hrun. simpl.
      rewrite (drop_S row d j Hdj). simpl.
      eexists. split_and!; [done|..]; simpl; by f_equal.
Qed.

(** The runs of [search_documents], by the step that fails. *)
Lemma search_documents_cases env q n st :
  search_documents env q n st =
  match encode env [q] with
  | inl _ => ([], count_encode st)
  | inr v =>
      match query env (collection st) v n with
      | inl _ => ([], count_encode st)
      | inr r =>
          match documents r !! 0%nat with
          | None => ([], count_encode st)
          | Some docs =>
              try_except (format_results r (seq 0 (length docs))) []
                (count_encode st)
          end
      end
  end.
Proof.
  unfold search_documents, try_except, search_documents_body, encode_texts.
  run. destruct (encode env [q]) as [e|v]; [done|]. simpl.
  destruct (query env (collection st) v n) as [e|r]; [done|]. simpl.
  unfold item. by destruct (documents r !! 0%nat).
Qed.

End Search.

(** X21. [search_documents] changes nothing in the processor but the
    count of the calls to [encode], which it raises by one whatever
    happens: the collection, the metadata, the metadata file and the
    clock are as they were. *)
Theorem search_documents_frame {vector distance : Type}
    (env : Env vector distance) (st : Processor vector) (q : text) (n : Z) :
  (search_documents env q n st).2 = count_encode st.
Proof.
  rewrite search_documents_cases.
  destruct (encode env [q]) as [e|v]; [done|].
  destruct (query env (collection st) v n) as [e|r]; [done|].
  destruct (documents r !! 0%nat) as [docs|]; [|done].
  unfold try_except.
  destruct (format_results_run r (seq 0 (length docs)) (count_encode st))
    as (outcome & -> & _).
  by destruct outcome.
Qed.

(** X22. [search_documents] returns all the documents of the store's
    answer or none: its result is empty, or it holds, in the order of
    the store, exactly the documents [results['documents'][0]]. *)
Theorem search_documents_all_or_nothing {vector distance : Type}
    (env : Env vector distance) (st : Processor vector) (q : text) (n : Z) :
  (search_documents env q n st).1 = [] ∨
  ∃ v r docs,
    encode env [q] = inr v ∧
    query env (collection st) v n = inr r ∧
    documents r !! 0%nat = Some docs ∧
    content <$> (search_documents env q n st).1 = docs.
Proof.
  rewrite search_documents_cases.
  destruct (encode env [q]) as [e|v]; [by left|].
  destruct (query env (collection st) v n) as [e|r] eqn:Hquery; [by left|].
  destruct (documents r !! 0%nat) as [docs|] eqn:Hdocs; [|by left].
  unfold try_except.
  destruct (format_results_run r (seq 0 (length docs)) (count_encode st))
    as (outcome & -> & Hhits).
  destruct outcome as [e|hits]; [by left|]. right.
  exists v, r, docs. split_and!; [done..|]. simpl.
  specialize (Hhits hits docs eq_refl Hdocs).
  rewrite lookups_seq in Hhits.
  exact (list_fmap_eq_inj Some _ _ _ Hhits).
Qed.

(** X23. When the store answers with as many metadata records and
    distances as documents, [search_documents] returns one hit per
    document, in the order of the store, with its text, its metadata and
    its distance; without the key [distances] the distance of every hit
    is [None]. *)
Theorem search_documents_formats {vector distance : Type}
    (env : Env vector distance) (st : Processor vector) (q : text) (n : Z)
    (v : list vector) (r : QueryResult distance)
    (docs : list text) (metas : list ChunkMeta) (row : list distance) :
  encode env [q] = inr v →
  query env (collection st) v n = inr r →
  documents r !! 0%nat = Some docs →
  metadatas r !! 0%nat = Some metas →
  distances r = None ∨
    (∃ ds, distances r = Some ds ∧ ds !! 0%nat = Some row) →
  length metas = length docs →
  (distances r ≠ None → length row = length docs) →
  content <$> (search_documents env q n st).1 = docs ∧
  metadata <$> (search_documents env q n st).1 = metas ∧
  hit_distance <$> (search_documents env q n st).1 =
    match distances r with
    | Some _ => Some <$> row
    | None => replicate (length docs) None
    end.
Proof.
  intros Hencode Hquery Hdocs Hmetas Hdist Hlm Hlr.
  rewrite search_documents_cases, Hencode, Hquery, Hdocs.
  unfold try_except.
  destruct (format_results_complete r docs metas row 0 (length docs)
              (count_encode st) Hdocs Hmetas Hdist)
    as (hits & -> & Hc & Hm & Hd); [lia|lia| |].
  { intros Hne. specialize (Hlr Hne). lia. }
  simpl. rewrite Hc, Hm, Hd, !drop_0. split_and!.
  - by apply take_ge.
  - apply take_ge. lia.
  - destruct (distances r) eqn:Hds; [|done].
    f_equal. apply take_ge. specialize (Hlr ltac:(done)). lia.
Qed.

Lemma search_documents_formats_witness :
  content <$>
    (search_documents batch_env (list_ascii_of_string "notes") 5
       (process_all_documents batch_env fresh_processor).2).1
  = [list_ascii_of_string "some notes"; list_ascii_of_string "a paper"].
Proof.
  eapply (search_documents_formats batch_env
            (process_all_documents batch_env fresh_processor).2
            (list_ascii_of_string "notes") 5 _ _
            [list_ascii_of_string "some notes"; list_ascii_of_string "a paper"]
            _ [0%nat; 0%nat]).
  - by vm_compute.
  - by vm_compute.
  - by vm_compute.
  - by vm_compute.
  - right. eexists. split; by vm_compute.
  - by vm_compute.
  - intros _. by vm_compute.
Defined.

(** * Properties of the chat route *)

Section ChatRoute.

Context {vector distance : Type}.
Implicit Types (env : Env vector distance) (app : App vector).
Implicit Types (llm : list ChatMessage → exn + text).

(** The runs of [chat], by the step that ends them. *)
Lemma chat_cases env llm request app :
  chat env llm request app =
  match request with
  | NoJson e => (ChatServerError e, app)
  | Json message =>
      let user_message := strip (default [] message) in
      if is_empty user_message then (ChatBadRequest, app)
      else
        let found := search_documents env user_message 3 (doc_processor app) in
        let asked :=
          append_history (user_turn env (doc_processor app) user_message)
            (set_doc_processor found.2 app) in
        match llm (conversation_history asked) with
        | inl e => (ChatServerError e, asked)
        | inr reply =>
            (ChatReply reply (clock found.2)
               ((λ doc, chunk_file_name (metadata doc)) <$> found.1),
             set_doc_processor (tick found.2)
               (append_history
                  {| role := RoleAssistant; message_content := reply |} asked))
        end
  end.
Proof.
  unfold chat, chat_body.
  unfold mbind, M_bind, bind, mret, M_ret, ret, call, raise, modify,
    get_state, on_processor.
  destruct request as [e|message]; [done|]. simpl.
  destruct (is_empty (strip (default [] message))); [done|].
  destruct (search_documents env _ 3 (doc_processor app)) as [hits p] eqn:Hs.
  unfold user_turn. rewrite Hs. simpl.
  by destruct (llm _).
Qed.

End ChatRoute.

(** X24. A request whose message is missing, empty or blank is answered
    with the status 400; nothing is searched, the model is not called
    and the conversation is as it was. *)
Theorem chat_blank_message {vector distance : Type}
    (env : Env vector distance) (llm : list ChatMessage → exn + text)
    (message : option text) (app : App vector) :
  strip (default [] message) = [] →
  chat env llm (Json message) app = (ChatBadRequest, app).
Proof. intros Hblank. rewrite chat_cases. simpl. by rewrite Hblank. Qed.

Lemma chat_blank_message_witness :
  chat batch_env answering_llm (Json None) batch_app
    = (ChatBadRequest, batch_app) ∧
  chat batch_env answering_llm (Json (Some (list_ascii_of_string "   ")))
    batch_app = (ChatBadRequest, batch_app).
Proof. split; apply chat_blank_message; reflexivity. Defined.

(** X25. When the language model raises, the request is answered with
    the status 500 and the conversation keeps the user's message, with
    no reply after it: the message is sent again with the next
    request. *)
Theorem chat_model_failure {vector distance : Type}
    (env : Env vector distance) (llm : list ChatMessage → exn + text)
    (message : text) (app : App vector) (e : exn) :
  strip message ≠ [] →
  llm (conversation_history app
       ++ [user_turn env (doc_processor app) (strip message)]) = inl e →
  ∃ app',
    chat env llm (Json (Some message)) app = (ChatServerError e, app') ∧
    conversation_history app' =
      conversation_history app
      ++ [user_turn env (doc_processor app) (strip message)].
Proof.
  intros Hmessage Hllm. rewrite chat_cases. simpl.
  destruct (strip message) as [|c rest] eqn:Hstrip; [done|]. simpl.
  simpl in Hllm. rewrite Hllm. by eexists.
Qed.

Lemma chat_model_failure_witness :
  ∃ app',
    chat batch_env failing_llm (Json (Some (list_ascii_of_string " notes? ")))
      batch_app = (ChatServerError (RuntimeError "rate limit"), app') ∧
    conversation_history app' =
      conversation_history batch_app
      ++ [user_turn batch_env (doc_processor batch_app)
            (strip (list_ascii_of_string " notes? "))].
Proof.
  apply chat_model_failure; [by vm_compute|reflexivity].
Defined.

(** X26. When the language model answers, the request is answered with
    its reply and the file names of the documents found, in their order,
    and the conversation grows by the user's message and the reply. *)
Theorem chat_reply {vector distance : Type}
    (env : Env vector distance) (llm : list ChatMessage → exn + text)
    (message : text) (app : App vector) (reply : text) :
  strip message ≠ [] →
  llm (conversation_history app
       ++ [user_turn env (doc_processor app) (strip message)]) = inr reply →
  ∃ timestamp app',
    chat env llm (Json (Some message)) app =
      (ChatReply reply timestamp
         ((λ doc, chunk_file_name (metadata doc)) <$>
            (search_documents env (strip message) 3 (doc_processor app)).1),
       app') ∧
    conversation_history app' =
      conversation_history app
      ++ [user_turn env (doc_processor app) (strip message);
          {| role := RoleAssistant; message_content := reply |}].
Proof.
  intros Hmessage Hllm. rewrite chat_cases. simpl.
  destruct (strip message) as [|c rest] eqn:Hstrip; [done|]. simpl.
  simpl in Hllm. rewrite Hllm. do 2 eexists. split; [done|].
  simpl. by rewrite <- app_assoc.
Qed.

Lemma chat_reply_witness :
  ∃ timestamp app',
    chat batch_env answering_llm
      (Json (Some (list_ascii_of_string " notes? "))) batch_app =
      (ChatReply (list_ascii_of_string "It is in your notes.") timestamp
         ((λ doc, chunk_file_name (metadata doc)) <$>
            (search_documents batch_env
               (strip (list_ascii_of_string " notes? ")) 3
               (doc_processor batch_app)).1),
       app') ∧
    conversation_history app' =
      conversation_history batch_app
      ++ [user_turn batch_env (doc_processor batch_app)
            (strip (list_ascii_of_string " notes? "));
          {| role := RoleAssistant;
             message_content := list_ascii_of_string "It is in your notes." |}].
Proof.
  apply chat_reply; [by vm_compute|reflexivity].
Defined.

(** X27. [chat] only appends to the conversation, at most two messages,
    so that the system message stays first; [clear_chat] brings the
    conversation back to the system message alone and leaves the
    processor as it is. *)
Theorem chat_history_grows {vector distance : Type}
    (env : Env vector distance) (llm : list ChatMessage → exn + text)
    (request : ChatRequest) (app : App vector) :
  (∃ added,
     conversation_history (chat env llm request app).2
       = conversation_history app ++ added ∧
     (length added ≤ 2)%nat) ∧
  (head (conversation_history app) = Some system_message →
   head (conversation_history (chat env llm request app).2)
     = Some system_message) ∧
  conversation_history (clear_chat (chat env llm request app).2)
    = [system_message] ∧
  doc_processor (clear_chat app) = doc_processor app.
Proof.
  assert (Hgrow : ∃ added,
     conversation_history (chat env llm request app).2
       = conversation_history app ++ added ∧ (length added ≤ 2)%nat).
  { rewrite chat_cases. destruct request as [e|message].
    { exists []. split; [by rewrite app_nil_r|simpl; lia]. }
    simpl. destruct (is_empty _).
    { exists []. split; [by rewrite app_nil_r|simpl; lia]. }
    destruct (llm _) as [e|reply]; simpl.
    - eexists [_]. split; [done|simpl; lia].
    - eexists [_; _]. rewrite <- app_assoc. split; [done|simpl; lia]. }
  split; [exact Hgrow|]. split; [|by split].
  destruct Hgrow as (added & -> & _).
  by destruct (conversation_history app).
Qed.

Lemma chat_history_grows_witness :
  head (conversation_history
          (chat batch_env failing_llm
             (Json (Some (list_ascii_of_string "notes?"))) batch_app).2)
  = Some system_message.
Proof.
  apply (chat_history_grows batch_env failing_llm
           (Json (Some (list_ascii_of_string "notes?"))) batch_app).
  reflexivity.
Defined.

(** X28. When retrieval fails (here: [encode] raises), the chat goes on
    without context: the model is asked the user's stripped message, as
    it is, and the reply names no source. *)
Theorem chat_without_retrieval {vector distance : Type}
    (env : Env vector distance) (llm : list ChatMessage → exn + text)
    (message : text) (app : App vector) (e : exn) (reply : text) :
  strip message ≠ [] →
  encode env [strip message] = inl e →
  llm (conversation_history app
       ++ [{| role := RoleUser; message_content := strip message |}])
    = inr reply →
  ∃ timestamp app',
    chat env llm (Json (Some message)) app
      = (ChatReply reply timestamp [], app') ∧
    conversation_history app' =
      conversation_history app
      ++ [{| role := RoleUser; message_content := strip message |};
          {| role := RoleAssistant; message_content := reply |}].
Proof.
  intros Hmessage Hencode Hllm. rewrite chat_cases. simpl.
  destruct (strip message) as [|c rest] eqn:Hstrip; [done|]. simpl.
  unfold user_turn. rewrite search_documents_cases, Hencode. simpl.
  change (enhanced_message (c :: rest) []) with (c :: rest).
  simpl in Hllm. rewrite Hllm. do 2 eexists. split; [done|].
  simpl. by rewrite <- app_assoc.
Qed.

Lemma chat_without_retrieval_witness :
  ∃ timestamp app',
    chat (failing_encoder batch_env) answering_llm
      (Json (Some (list_ascii_of_string " notes? "))) batch_app
      = (ChatReply (list_ascii_of_string "It is in your notes.") timestamp [],
         app') ∧
    conversation_history app' =
      conversation_history batch_app
      ++ [{| role := RoleUser;
             message_content := strip (list_ascii_of_string " notes? ") |};
          {| role := RoleAssistant;
             message_content := list_ascii_of_string "It is in your notes." |}].
Proof.
  eapply chat_without_retrieval; [by vm_compute|reflexivity|reflexivity].
Defined.
